(** * Script writer: generation contract and rendering pipeline

    A shallow embedding of [src/index.tsx] (the [App] component): the
    prompt construction and reply handling of [handleGenerate], the title
    derivation [formatTitle], the text flattening [getFullScriptText], the
    per-section copy text, the speech toggle [handleListen] and the page
    walk of [handleExportPdf].

    Strings.  A JavaScript string is modelled by a Rocq [string] holding the
    UTF-8 encoding of its text.  Every character class the program tests
    ([A-Z], white space, digits, the JSON punctuation) is recognised on that
    encoding exactly; the only operation that needs the Unicode case tables,
    upper-casing a leading character outside ASCII, is a parameter of the
    development. *)

From Stdlib Require Import String Ascii List Bool NArith ZArith Lia.
From Stdlib Require Import QArith Qround.
From Stdlib Require Import DecimalString.
Import ListNotations.

Set Warnings "-register-all".

Local Open Scope string_scope.
Local Open Scope N_scope.

(* ================================================================== *)
(** ** JavaScript string primitives *)
(* ================================================================== *)

Module JS.

Definition code (c : ascii) : N := N_of_ascii c.

Definition chr (n : N) : ascii := ascii_of_N n.

Fixpoint bytes (l : list N) : string :=
  match l with
  | [] => EmptyString
  | b :: r => String (chr b) (bytes r)
  end.

(** The line feed and the double quote, which a Rocq literal cannot hold. *)
Definition LF : string := bytes [10].
Definition DQ : string := bytes [34].

Definition inRange (lo hi : N) (c : ascii) : bool :=
  (lo <=? code c) && (code c <=? hi).

Definition isEmpty (s : string) : bool :=
  match s with
  | EmptyString => true
  | String _ _ => false
  end.

Fixpoint rev (s : string) : string :=
  match s with
  | EmptyString => EmptyString
  | String c r => rev r ++ String c EmptyString
  end.

(** [Array.prototype.join] on an array of strings. *)
Fixpoint join (sep : string) (xs : list string) : string :=
  match xs with
  | [] => EmptyString
  | x :: rest =>
      match rest with
      | [] => x
      | _ :: _ => x ++ sep ++ join sep rest
      end
  end.

(** *** White space

    [String.prototype.trim] and [parseInt] strip WhiteSpace and
    LineTerminator code points: U+0009..U+000D, U+0020, U+00A0, U+1680,
    U+2000..U+200A, U+2028, U+2029, U+202F, U+205F, U+3000 and U+FEFF.
    In UTF-8 these are the following one, two and three byte sequences. *)

Definition isWs1 (c : ascii) : bool :=
  inRange 9 13 c || (code c =? 32).

Definition isWs2 (c1 c2 : ascii) : bool :=
  (code c1 =? 194) && (code c2 =? 160).

Definition isWs3 (c1 c2 c3 : ascii) : bool :=
  ((code c1 =? 225) && (code c2 =? 154) && (code c3 =? 128))
  || ((code c1 =? 226) && (code c2 =? 128)
      && (inRange 128 138 c3 || inRange 168 169 c3 || (code c3 =? 175)))
  || ((code c1 =? 226) && (code c2 =? 129) && (code c3 =? 159))
  || ((code c1 =? 227) && (code c2 =? 128) && (code c3 =? 128))
  || ((code c1 =? 239) && (code c2 =? 187) && (code c3 =? 191)).

Fixpoint trimStart (s : string) : string :=
  match s with
  | EmptyString => EmptyString
  | String c1 r1 =>
      if isWs1 c1 then trimStart r1 else
      match r1 with
      | EmptyString => s
      | String c2 r2 =>
          if isWs2 c1 c2 then trimStart r2 else
          match r2 with
          | EmptyString => s
          | String c3 r3 => if isWs3 c1 c2 c3 then trimStart r3 else s
          end
      end
  end.

(** The same walk on the reversed string, where each sequence shows up
    last byte first. *)
Fixpoint trimStartRev (s : string) : string :=
  match s with
  | EmptyString => EmptyString
  | String c1 r1 =>
      if isWs1 c1 then trimStartRev r1 else
      match r1 with
      | EmptyString => s
      | String c2 r2 =>
          if isWs2 c2 c1 then trimStartRev r2 else
          match r2 with
          | EmptyString => s
          | String c3 r3 => if isWs3 c3 c2 c1 then trimStartRev r3 else s
          end
      end
  end.

Definition trimEnd (s : string) : string := rev (trimStartRev (rev s)).

(** [String.prototype.trim]. *)
Definition trim (s : string) : string := trimEnd (trimStart s).

(** *** [parseInt] with no radix argument

    The result is [None] for NaN and the exact integer otherwise.  The
    program only compares the result with zero, and rounding a non-zero
    integer to a double never changes its sign. *)

Definition digitValue (radix : N) (c : ascii) : option N :=
  let v :=
    if inRange 48 57 c then Some (code c - 48)
    else if inRange 97 122 c then Some (code c - 87)
    else if inRange 65 90 c then Some (code c - 55)
    else None in
  match v with
  | Some d => if d <? radix then Some d else None
  | None => None
  end.

(** The longest prefix of radix digits, folded into its value; [None] when
    that prefix is empty. *)
Fixpoint digitsFrom (radix : N) (acc : option N) (s : string) : option N :=
  match s with
  | EmptyString => acc
  | String c r =>
      match digitValue radix c with
      | Some d =>
          digitsFrom radix
            (Some (match acc with Some a => a * radix + d | None => d end)) r
      | None => acc
      end
  end.

Definition stripSign (s : string) : bool * string :=
  match s with
  | String c r =>
      if code c =? 45 then (true, r)
      else if code c =? 43 then (false, r)
      else (false, s)
  | EmptyString => (false, s)
  end.

Definition stripHexPrefix (s : string) : N * string :=
  match s with
  | String c1 (String c2 r) =>
      if (code c1 =? 48) && ((code c2 =? 120) || (code c2 =? 88))
      then (16, r) else (10, s)
  | _ => (10, s)
  end.

Definition parseInt (input : string) : option Z :=
  let (negative, s1) := stripSign (trimStart input) in
  let (radix, s2) := stripHexPrefix s1 in
  match digitsFrom radix None s2 with
  | Some n => Some (if negative then (- Z.of_N n)%Z else Z.of_N n)
  | None => None
  end.

(** ASCII part of [String.prototype.toUpperCase]. *)
Definition toUpperAscii (c : ascii) : ascii :=
  if inRange 97 122 c then chr (code c - 32) else c.

End JS.

(* ================================================================== *)
(** ** JSON values and [JSON.parse] *)
(* ================================================================== *)

Module Json.

(** A number keeps its lexeme: the program never computes with one. *)
Inductive json : Type :=
  | JNull
  | JBool (b : bool)
  | JNumber (lexeme : string)
  | JString (s : string)
  | JArray (items : list json)
  | JObject (props : list (string * json)).

(** *** Property order of an object

    Own properties are enumerated with the array indices first, in
    ascending order, then the other keys in the order they were created;
    writing an existing key keeps its place. *)

Fixpoint allDigits (s : string) : bool :=
  match s with
  | EmptyString => true
  | String c r => JS.inRange 48 57 c && allDigits r
  end.

Definition arrayIndex (k : string) : option N :=
  match k with
  | EmptyString => None
  | String c r =>
      if allDigits k && implb (JS.code c =? 48) (JS.isEmpty r)
      then match JS.digitsFrom 10 None k with
           | Some n => if n <=? 4294967294 then Some n else None
           | None => None
           end
      else None
  end.

Fixpoint hasKey (k : string) (props : list (string * json)) : bool :=
  match props with
  | [] => false
  | (k', _) :: rest => String.eqb k k' || hasKey k rest
  end.

Fixpoint replaceValue (k : string) (v : json) (props : list (string * json))
  : list (string * json) :=
  match props with
  | [] => []
  | (k', v') :: rest =>
      if String.eqb k k' then (k', v) :: rest
      else (k', v') :: replaceValue k v rest
  end.

Fixpoint insertIndex (n : N) (k : string) (v : json)
  (props : list (string * json)) : list (string * json) :=
  match props with
  | [] => [(k, v)]
  | (k', v') :: rest =>
      match arrayIndex k' with
      | Some m =>
          if m <? n then (k', v') :: insertIndex n k v rest
          else (k, v) :: props
      | None => (k, v) :: props
      end
  end.

Definition defineProperty (k : string) (v : json)
  (props : list (string * json)) : list (string * json) :=
  if hasKey k props then replaceValue k v props
  else match arrayIndex k with
       | Some n => insertIndex n k v props
       | None => (props ++ [(k, v)])%list
       end.

Fixpoint lookup (k : string) (props : list (string * json)) : option json :=
  match props with
  | [] => None
  | (k', v) :: rest => if String.eqb k k' then Some v else lookup k rest
  end.

(** *** Lexical level *)

Definition isJsonWs (c : ascii) : bool :=
  (JS.code c =? 32) || (JS.code c =? 9) || (JS.code c =? 10) || (JS.code c =? 13).

Fixpoint skipWs (s : string) : string :=
  match s with
  | EmptyString => EmptyString
  | String c r => if isJsonWs c then skipWs r else s
  end.

Fixpoint takeDigits (s : string) : string * string :=
  match s with
  | EmptyString => (EmptyString, EmptyString)
  | String c r =>
      if JS.inRange 48 57 c
      then let (d, rest) := takeDigits r in (String c d, rest)
      else (EmptyString, s)
  end.

(** A JSON number: an optional minus sign, an integer part without
    leading zero, an optional fraction and an optional exponent. *)
Definition lexSign (s : string) : string * string :=
  match s with
  | String c r => if JS.code c =? 45 then ("-", r) else (EmptyString, s)
  | EmptyString => (EmptyString, s)
  end.

Definition lexFraction (s : string) : option (string * string) :=
  match s with
  | String c r =>
      if JS.code c =? 46 then
        let (f, rest) := takeDigits r in
        if JS.isEmpty f then None else Some ("." ++ f, rest)
      else Some (EmptyString, s)
  | EmptyString => Some (EmptyString, s)
  end.

Definition lexExponentSign (s : string) : string * string :=
  match s with
  | String c r =>
      if (JS.code c =? 43) || (JS.code c =? 45)
      then (String c EmptyString, r) else (EmptyString, s)
  | EmptyString => (EmptyString, s)
  end.

Definition lexExponent (s : string) : option (string * string) :=
  match s with
  | String c r =>
      if (JS.code c =? 101) || (JS.code c =? 69) then
        let (sg, r') := lexExponentSign r in
        let (e, rest) := takeDigits r' in
        if JS.isEmpty e then None else Some (String c sg ++ e, rest)
      else Some (EmptyString, s)
  | EmptyString => Some (EmptyString, s)
  end.

Definition lexNumber (s : string) : option (string * string) :=
  let (sign, s1) := lexSign s in
  let (int, s2) := takeDigits s1 in
  match int with
  | EmptyString => None
  | String d more =>
      if (JS.code d =? 48) && negb (JS.isEmpty more) then None else
      match lexFraction s2 with
      | None => None
      | Some (f, s3) =>
          match lexExponent s3 with
          | None => None
          | Some (e, s4) => Some (sign ++ int ++ f ++ e, s4)
          end
      end
  end.

(** String literals: a raw byte, or the UTF-16 code unit of a [\u] escape. *)
Inductive strItem : Type :=
  | Raw (c : ascii)
  | Unit16 (n : N).

Definition hex4 (h1 h2 h3 h4 : ascii) : option N :=
  match JS.digitValue 16 h1, JS.digitValue 16 h2,
        JS.digitValue 16 h3, JS.digitValue 16 h4 with
  | Some a, Some b, Some c, Some d => Some (((a * 16 + b) * 16 + c) * 16 + d)
  | _, _, _, _ => None
  end.

Definition simpleEscape (e : ascii) : option ascii :=
  let n := JS.code e in
  if (n =? 34) || (n =? 92) || (n =? 47) then Some e
  else if n =? 98 then Some (JS.chr 8)
  else if n =? 102 then Some (JS.chr 12)
  else if n =? 110 then Some (JS.chr 10)
  else if n =? 114 then Some (JS.chr 13)
  else if n =? 116 then Some (JS.chr 9)
  else None.

Definition consItem (i : strItem) (r : option (list strItem * string))
  : option (list strItem * string) :=
  match r with
  | Some (items, rest) => Some (i :: items, rest)
  | None => None
  end.

(** The text after an opening quote, up to and including the closing one. *)
Fixpoint lexStringBody (s : string) : option (list strItem * string) :=
  match s with
  | EmptyString => None
  | String c r =>
      if JS.code c =? 34 then Some ([], r)
      else if JS.code c =? 92 then
        match r with
        | EmptyString => None
        | String e r1 =>
            if JS.code e =? 117 then
              match r1 with
              | String h1 (String h2 (String h3 (String h4 r2))) =>
                  match hex4 h1 h2 h3 h4 with
                  | Some n => consItem (Unit16 n) (lexStringBody r2)
                  | None => None
                  end
              | _ => None
              end
            else
              match simpleEscape e with
              | Some b => consItem (Raw b) (lexStringBody r1)
              | None => None
              end
        end
      else if JS.code c <? 32 then None
      else consItem (Raw c) (lexStringBody r)
  end.

Definition utf8 (cp : N) : string :=
  if cp <? 128 then JS.bytes [cp]
  else if cp <? 2048 then JS.bytes [192 + cp / 64; 128 + cp mod 64]
  else if cp <? 65536 then
    JS.bytes [224 + cp / 4096; 128 + (cp / 64) mod 64; 128 + cp mod 64]
  else
    JS.bytes [240 + cp / 262144; 128 + (cp / 4096) mod 64;
              128 + (cp / 64) mod 64; 128 + cp mod 64].

Definition isHighSurrogate (n : N) : bool := (55296 <=? n) && (n <=? 56319).
Definition isLowSurrogate (n : N) : bool := (56320 <=? n) && (n <=? 57343).

(** Escaped surrogate pairs become one code point; a lone surrogate is
    encoded like any other three-byte value. *)
Fixpoint encodeItems (items : list strItem) : string :=
  match items with
  | [] => EmptyString
  | Raw c :: rest => String c (encodeItems rest)
  | Unit16 n :: rest =>
      match rest with
      | Unit16 m :: rest' =>
          if isHighSurrogate n && isLowSurrogate m
          then utf8 (65536 + (n - 55296) * 1024 + (m - 56320)) ++ encodeItems rest'
          else utf8 n ++ encodeItems rest
      | _ => utf8 n ++ encodeItems rest
      end
  end.

Definition lexString (s : string) : option (string * string) :=
  match lexStringBody s with
  | Some (items, rest) => Some (encodeItems items, rest)
  | None => None
  end.

Fixpoint stripPrefix (p s : string) : option string :=
  match p with
  | EmptyString => Some s
  | String a p' =>
      match s with
      | String b s' => if Ascii.eqb a b then stripPrefix p' s' else None
      | EmptyString => None
      end
  end.

(** A value that is not an object or an array. *)
Definition lexScalar (s : string) : option (json * string) :=
  match s with
  | EmptyString => None
  | String c r =>
      if JS.code c =? 34 then
        match lexString r with
        | Some (str, rest) => Some (JString str, rest)
        | None => None
        end
      else
        match stripPrefix "true" s with
        | Some rest => Some (JBool true, rest)
        | None =>
        match stripPrefix "false" s with
        | Some rest => Some (JBool false, rest)
        | None =>
        match stripPrefix "null" s with
        | Some rest => Some (JNull, rest)
        | None =>
        match lexNumber s with
        | Some (lexeme, rest) => Some (JNumber lexeme, rest)
        | None => None
        end end end end
  end.

(** *** Values

    The recursion over nested values runs on fuel; running out of it is
    kept apart from a malformed text. *)

Inductive outcome : Type :=
  | Parsed (v : json) (rest : string)
  | Malformed
  | OutOfFuel.

Fixpoint parseValue (fuel : nat) (s : string) : outcome :=
  match fuel with
  | O => OutOfFuel
  | S fuel' =>
      match skipWs s with
      | EmptyString => Malformed
      | String c r as s0 =>
          if JS.code c =? 123 then
            match skipWs r with
            | String c' r' =>
                if JS.code c' =? 125 then Parsed (JObject []) r'
                else parseMembers fuel' r []
            | EmptyString => Malformed
            end
          else if JS.code c =? 91 then
            match skipWs r with
            | String c' r' =>
                if JS.code c' =? 93 then Parsed (JArray []) r'
                else parseElements fuel' r []
            | EmptyString => Malformed
            end
          else
            match lexScalar s0 with
            | Some (v, rest) => Parsed v rest
            | None => Malformed
            end
      end
  end

with parseElements (fuel : nat) (s : string) (acc : list json) : outcome :=
  match fuel with
  | O => OutOfFuel
  | S fuel' =>
      match parseValue fuel' s with
      | Parsed v rest =>
          match skipWs rest with
          | String c r =>
              if JS.code c =? 44 then parseElements fuel' r (v :: acc)
              else if JS.code c =? 93 then Parsed (JArray (List.rev (v :: acc))) r
              else Malformed
          | EmptyString => Malformed
          end
      | Malformed => Malformed
      | OutOfFuel => OutOfFuel
      end
  end

with parseMembers (fuel : nat) (s : string) (acc : list (string * json))
  : outcome :=
  match fuel with
  | O => OutOfFuel
  | S fuel' =>
      match skipWs s with
      | String q r =>
          if JS.code q =? 34 then
            match lexString r with
            | Some (k, r1) =>
                match skipWs r1 with
                | String c r2 =>
                    if JS.code c =? 58 then
                      match parseValue fuel' r2 with
                      | Parsed v r3 =>
                          match skipWs r3 with
                          | String c' r4 =>
                              if JS.code c' =? 44
                              then parseMembers fuel' r4 (defineProperty k v acc)
                              else if JS.code c' =? 125
                              then Parsed (JObject (defineProperty k v acc)) r4
                              else Malformed
                          | EmptyString => Malformed
                          end
                      | Malformed => Malformed
                      | OutOfFuel => OutOfFuel
                      end
                    else Malformed
                | EmptyString => Malformed
                end
            | None => Malformed
            end
          else Malformed
      | EmptyString => Malformed
      end
  end.

Definition parseFuel (text : string) : nat := 2 * String.length text + 2.

(** An outcome that did not lack fuel and, if a value, consumed input. *)
Definition fueled (o : outcome) (s : string) : Prop :=
  match o with
  | Parsed _ rest => (String.length rest < String.length s)%nat
  | Malformed => True
  | OutOfFuel => False
  end.

(** [JSON.parse]: [None] stands for the SyntaxError it throws. *)
Definition parse (text : string) : option json :=
  match parseValue (parseFuel text) text with
  | Parsed v rest => if JS.isEmpty (skipWs rest) then Some v else None
  | Malformed => None
  | OutOfFuel => None
  end.

End Json.

Import Json.

(* ================================================================== *)
(** ** The generated document *)
(* ================================================================== *)

Record VisualIdeas : Type := {
  shotSuggestions : list string;
  bRoll : list string
}.

(** [type GeneratedSectionValue = string | VisualIdeas]. *)
Inductive GeneratedSectionValue : Type :=
  | Text (body : string)
  | Visual (ideas : VisualIdeas).

(** [Record<string, GeneratedSectionValue>], in property order. *)
Definition Sections : Type := list (string * GeneratedSectionValue).

(** The parsed reply is stored as it is.  The renderers are typed over
    [Sections]; these functions read a parsed value at that type. *)

Fixpoint asStrings (items : list json) : option (list string) :=
  match items with
  | [] => Some []
  | JString s :: rest =>
      match asStrings rest with
      | Some l => Some (s :: l)
      | None => None
      end
  | _ :: _ => None
  end.

Definition asVisualIdeas (props : list (string * json)) : option VisualIdeas :=
  match Json.lookup "shotSuggestions" props, Json.lookup "bRoll" props with
  | Some (JArray shots), Some (JArray rolls) =>
      match asStrings shots, asStrings rolls with
      | Some s, Some b => Some {| shotSuggestions := s; bRoll := b |}
      | _, _ => None
      end
  | _, _ => None
  end.

Definition asSectionValue (j : json) : option GeneratedSectionValue :=
  match j with
  | JString s => Some (Text s)
  | JObject props =>
      match asVisualIdeas props with
      | Some v => Some (Visual v)
      | None => None
      end
  | _ => None
  end.

Fixpoint asEntries (props : list (string * json)) : option Sections :=
  match props with
  | [] => Some []
  | (k, v) :: rest =>
      match asSectionValue v, asEntries rest with
      | Some sv, Some l => Some ((k, sv) :: l)
      | _, _ => None
      end
  end.

Definition asSections (j : json) : option Sections :=
  match j with
  | JObject props => asEntries props
  | _ => None
  end.

(** The keys the response schema marks as required. *)
Definition requiredKeys : list string :=
  ["hook"; "introduction"; "mainContent"; "callToAction"; "visualIdeas";
   "hashtags"].

Definition hasAllKeys (keys : list string) (j : json) : bool :=
  match j with
  | JObject props => forallb (fun k => Json.hasKey k props) keys
  | _ => false
  end.

(* ================================================================== *)
(** ** Component state *)
(* ================================================================== *)

Record App : Type := {
  scriptContent : string;
  wordCount : string;
  advancedInstructions : string;
  selectedPlatforms : list string;
  generatedSections : option json;
  isLoading : bool;
  error : option string;
  copiedKey : option string;
  selectedVoiceURI : option string;
  speakingKey : option string
}.

Definition setGeneratedSections (v : option json) (st : App) : App :=
  {| scriptContent := scriptContent st; wordCount := wordCount st;
     advancedInstructions := advancedInstructions st;
     selectedPlatforms := selectedPlatforms st;
     generatedSections := v; isLoading := isLoading st; error := error st;
     copiedKey := copiedKey st; selectedVoiceURI := selectedVoiceURI st;
     speakingKey := speakingKey st |}.

Definition setIsLoading (v : bool) (st : App) : App :=
  {| scriptContent := scriptContent st; wordCount := wordCount st;
     advancedInstructions := advancedInstructions st;
     selectedPlatforms := selectedPlatforms st;
     generatedSections := generatedSections st; isLoading := v;
     error := error st; copiedKey := copiedKey st;
     selectedVoiceURI := selectedVoiceURI st; speakingKey := speakingKey st |}.

Definition setError (v : option string) (st : App) : App :=
  {| scriptContent := scriptContent st; wordCount := wordCount st;
     advancedInstructions := advancedInstructions st;
     selectedPlatforms := selectedPlatforms st;
     generatedSections := generatedSections st; isLoading := isLoading st;
     error := v; copiedKey := copiedKey st;
     selectedVoiceURI := selectedVoiceURI st; speakingKey := speakingKey st |}.

Definition setCopiedKey (v : option string) (st : App) : App :=
  {| scriptContent := scriptContent st; wordCount := wordCount st;
     advancedInstructions := advancedInstructions st;
     selectedPlatforms := selectedPlatforms st;
     generatedSections := generatedSections st; isLoading := isLoading st;
     error := error st; copiedKey := v;
     selectedVoiceURI := selectedVoiceURI st; speakingKey := speakingKey st |}.

Definition setSpeakingKey (v : option string) (st : App) : App :=
  {| scriptContent := scriptContent st; wordCount := wordCount st;
     advancedInstructions := advancedInstructions st;
     selectedPlatforms := selectedPlatforms st;
     generatedSections := generatedSections st; isLoading := isLoading st;
     error := error st; copiedKey := copiedKey st;
     selectedVoiceURI := selectedVoiceURI st; speakingKey := v |}.

(** The [useState] initial values. *)
Definition initialApp : App :=
  {| scriptContent := EmptyString; wordCount := EmptyString;
     advancedInstructions := EmptyString;
     selectedPlatforms := ["Instagram"];
     generatedSections := None; isLoading := false; error := None;
     copiedKey := None; selectedVoiceURI := None; speakingKey := None |}.

(** The document at the renderers' declared type: the stored value read
    as a [Record<string, GeneratedSectionValue>], [None] when nothing is
    stored and also when the stored value is not of that type.  What the
    code does with a stored value of any shape is [getStoredScriptText]
    further down. *)
Definition document (st : App) : option Sections :=
  match generatedSections st with
  | Some j => asSections j
  | None => None
  end.

(* ================================================================== *)
(** ** Request construction and reply handling ([handleGenerate]) *)
(* ================================================================== *)

Definition promptBase (platforms : list string) (idea : string) : string :=
  "Based on the following content idea, generate a script for a social media post tailored for the following platforms: "
  ++ JS.join ", " platforms
  ++ ". Include a hook, introduction, main content, a call to action, detailed visual ideas (with specific shot suggestions and B-roll ideas), and relevant hashtags."
  ++ JS.LF ++ JS.LF ++ "Idea: " ++ JS.DQ ++ idea ++ JS.DQ.

(** [wordCount && parseInt(wordCount) > 0] *)
Definition wordCountGiven (wc : string) : bool :=
  negb (JS.isEmpty wc) &&
  match JS.parseInt wc with
  | Some n => (0 <? n)%Z
  | None => false
  end.

Definition wordCountDirective (wc : string) : string :=
  JS.LF ++ JS.LF ++ "The main content should be approximately " ++ wc ++ " words.".

Definition buildPrompt (st : App) : string :=
  let prompt := promptBase (selectedPlatforms st) (scriptContent st) in
  let prompt :=
    if wordCountGiven (wordCount st)
    then prompt ++ wordCountDirective (wordCount st)
    else prompt in
  if negb (JS.isEmpty (JS.trim (advancedInstructions st)))
  then prompt ++ JS.LF ++ JS.LF ++ "Advanced Instructions: "
              ++ JS.trim (advancedInstructions st)
  else prompt.

Definition systemInstruction : string :=
  "You are a helpful social media script generator. Your primary goal is to create engaging and appropriate content. You must adhere to the following safety policies strictly:"
  ++ JS.LF ++
  "1.  **Adult Content:** If the user's content idea or instructions request sexually explicit, violent, or otherwise inappropriate adult content, you MUST refuse the request. To do this, return a valid JSON object where the 'hook' field contains ONLY the exact string 'CONTENT_VIOLATION' and all other fields are empty. Do not explain why."
  ++ JS.LF ++
  "2.  **Visuals Policy:** In the 'visualIdeas' section, you must not suggest or describe any visuals that include images of women. You can describe scenes, objects, text, or men, but explicitly avoid mentioning women in both 'shotSuggestions' and 'bRoll'.".

(** The arguments of [ai.models.generateContent]; of the response schema
    only the [required] lists are kept. *)
Record Request : Type := {
  model : string;
  contents : string;
  instruction : string;
  responseMimeType : string;
  required : list string;
  visualIdeasRequired : list string
}.

Definition buildRequest (st : App) : Request :=
  {| model := "gemini-2.5-flash";
     contents := buildPrompt st;
     instruction := systemInstruction;
     responseMimeType := "application/json";
     required := requiredKeys;
     visualIdeasRequired := ["shotSuggestions"; "bRoll"] |}.

(** What the awaited call does: it throws, an [Error] with a message or
    some other value, or it resolves to a response whose [text] may be
    missing. *)
Inductive Thrown : Type :=
  | ErrorObject (message : string)
  | OtherValue.

Inductive ProviderResult : Type :=
  | Throws (e : Thrown)
  | Resolves (text : option string).

Definition sentinel : string := "CONTENT_VIOLATION".

Definition msgNoIdea : string := "Please enter a content idea first.".
Definition msgNoPlatform : string := "Please select at least one target platform.".
Definition msgEmptyReply : string :=
  "The model did not return a script. This might be due to a content safety filter. Please try modifying your request.".
Definition msgPolicy : string :=
  "Sorry, we are not able to provide this type of information.".
Definition msgFormat : string :=
  "The generated script was not in the expected format. Please try again.".
Definition msgUnknown : string := "An unknown error occurred.".

(** Reading a property of a parsed value. *)
Inductive PropertyRead : Type :=
  | TypeError
  | Undefined
  | Value (v : json).

(** [jsonResponse.hook]: reading a property of [null] throws, and a
    string, number, boolean or array has no property of that name. *)
Definition readHook (j : json) : PropertyRead :=
  match j with
  | JNull => TypeError
  | JObject props =>
      match Json.lookup "hook" props with
      | Some v => Value v
      | None => Undefined
      end
  | _ => Undefined
  end.

(** [jsonResponse.hook === 'CONTENT_VIOLATION'] *)
Definition isViolation (r : PropertyRead) : bool :=
  match r with
  | Value (JString s) => String.eqb s sentinel
  | _ => false
  end.

(** The inner [try] block: a SyntaxError of [JSON.parse] and a TypeError of
    the property read reach the same [catch]. *)
Definition handleReplyText (text : string) (st : App) : App :=
  match Json.parse text with
  | None => setError (Some msgFormat) st
  | Some jsonResponse =>
      match readHook jsonResponse with
      | TypeError => setError (Some msgFormat) st
      | hook =>
          if isViolation hook
          then setGeneratedSections None (setError (Some msgPolicy) st)
          else setGeneratedSections (Some jsonResponse) st
      end
  end.

(** The outer [try] block after the call has settled. *)
Definition handleResult (r : ProviderResult) (st : App) : App :=
  match r with
  | Throws (ErrorObject message) => setError (Some message) st
  | Throws OtherValue => setError (Some msgUnknown) st
  | Resolves None => setError (Some msgEmptyReply) st
  | Resolves (Some text) =>
      if JS.isEmpty text then setError (Some msgEmptyReply) st
      else handleReplyText text st
  end.

(** [handleGenerate], with the provider as a function of the request.  The
    second component lists the requests handed to the provider. *)
Definition handleGenerate (provider : Request -> ProviderResult) (st : App)
  : App * list Request :=
  if JS.isEmpty (JS.trim (scriptContent st)) then
    (setError (Some msgNoIdea) st, [])
  else if (List.length (selectedPlatforms st) =? 0)%nat then
    (setError (Some msgNoPlatform) st, [])
  else
    let st1 := setGeneratedSections None (setError None (setIsLoading true st)) in
    let request := buildRequest st in
    let st2 := handleResult (provider request) st1 in
    (setIsLoading false st2, [request]).

(* ================================================================== *)
(** ** Titles and text flattening *)
(* ================================================================== *)

Definition isCapital (c : ascii) : bool := JS.inRange 65 90 c.

(** [.replace(/([A-Z])/g, ' $1')] *)
Fixpoint spaceBeforeCapitals (s : string) : string :=
  match s with
  | EmptyString => EmptyString
  | String c r =>
      if isCapital c
      then String " " (String c (spaceBeforeCapitals r))
      else String c (spaceBeforeCapitals r)
  end.

Definition startsWithCapital (s : string) : bool :=
  match s with
  | EmptyString => false
  | String c _ => isCapital c
  end.

Section Rendering.

(** [toUpperCaseLead s], for [s] starting with a byte outside ASCII: [s]
    with its first UTF-16 code unit replaced by its upper-case mapping where
    [/^./] matches it.  The Unicode tables behind it are the platform's. *)
Variable toUpperCaseLead : string -> string.

(** [.replace(/^./, (str) => str.toUpperCase())]; the dot does not match a
    line terminator. *)
Definition upperFirst (s : string) : string :=
  match s with
  | EmptyString => EmptyString
  | String c r =>
      if (JS.code c =? 10) || (JS.code c =? 13) then s
      else if JS.code c <? 128 then String (JS.toUpperAscii c) r
      else toUpperCaseLead s
  end.

Definition formatTitle (title : string) : string :=
  upperFirst (spaceBeforeCapitals title).

Definition dashed (items : list string) : string :=
  JS.join JS.LF (map (fun s => "- " ++ s) items).

(** The callback of [.map] in [getFullScriptText]. *)
Definition renderEntry (entry : string * GeneratedSectionValue) : string :=
  let (key, value) := entry in
  let title := formatTitle key in
  match value with
  | Text body => title ++ JS.LF ++ body
  | Visual visualIdeas =>
      let shots := dashed (shotSuggestions visualIdeas) in
      let bRolls := dashed (bRoll visualIdeas) in
      title ++ JS.LF ++ "Shot Suggestions:" ++ JS.LF ++ shots
            ++ JS.LF ++ JS.LF ++ "B-Roll:" ++ JS.LF ++ bRolls
  end.

Definition getFullScriptText (generatedSections : option Sections)
  (forCopy : bool) : string :=
  match generatedSections with
  | None => EmptyString
  | Some entries => JS.join (JS.LF ++ JS.LF) (map renderEntry entries)
  end.

End Rendering.

(** The text the copy button of a section card hands to [handleCopy]. *)
Definition sectionCopyText (value : GeneratedSectionValue) : string :=
  match value with
  | Text body => body
  | Visual v =>
      "Shot Suggestions:" ++ JS.LF ++ JS.join JS.LF (shotSuggestions v)
      ++ JS.LF ++ JS.LF ++ "B-Roll:" ++ JS.LF ++ JS.join JS.LF (bRoll v)
  end.

(** [handleCopy]: the new state and the text written to the clipboard.
    The timer that clears [copiedKey] two seconds later is left out. *)
Definition handleCopy (key textToCopy : string) (st : App) : App * string :=
  (setCopiedKey (Some key) st, textToCopy).

Definition copySection (key : string) (value : GeneratedSectionValue)
  (st : App) : App * string :=
  handleCopy key (sectionCopyText value) st.

(** The text the listen button of a section card hands to [handleListen]. *)
Definition sectionSpeechText (value : GeneratedSectionValue) : string :=
  match value with
  | Text body => body
  | Visual v =>
      "Shot Suggestions: " ++ JS.join ". " (shotSuggestions v)
      ++ ". B-Roll: " ++ JS.join ". " (bRoll v)
  end.

(* ================================================================== *)
(** ** Speech ([handleListen]) *)
(* ================================================================== *)

(** Utterances are objects: [utteranceId] tells apart two of them with
    the same text and voice. *)
Record Utterance : Type := {
  utteranceId : nat;
  utteranceText : string;
  utteranceVoice : option string
}.

(** The component together with the utterance queue of
    [window.speechSynthesis] and the number of utterances created so far. *)
Record Speech : Type := {
  app : App;
  queue : list Utterance;
  created : nat
}.

Definition msgTts : string :=
  "Text-to-speech failed. Your browser might not support the selected voice.".

(** [voices.find(v => v.voiceURI === selectedVoiceURI)], a voice being
    identified by its URI. *)
Fixpoint findVoice (voices : list string) (uri : option string) : option string :=
  match voices with
  | [] => None
  | v :: rest =>
      match uri with
      | Some u => if String.eqb v u then Some v else findVoice rest uri
      | None => None
      end
  end.

Definition optionEqb (a : option string) (key : string) : bool :=
  match a with
  | Some k => String.eqb k key
  | None => false
  end.

(** [speechSynthesis.cancel()] removes every utterance from the queue,
    [speechSynthesis.speak(u)] adds one at its end. *)
Definition synthCancel (q : list Utterance) : list Utterance := [].

Definition synthSpeak (u : Utterance) (q : list Utterance) : list Utterance :=
  (q ++ [u])%list.

Definition handleListen (voices : list string) (key textToSpeak : string)
  (s : Speech) : Speech :=
  if optionEqb (speakingKey (app s)) key then
    {| app := setSpeakingKey None (app s);
       queue := synthCancel (queue s);
       created := created s |}
  else
    let q := synthCancel (queue s) in
    let utterance :=
      {| utteranceId := created s;
         utteranceText := textToSpeak;
         utteranceVoice := findVoice voices (selectedVoiceURI (app s)) |} in
    {| app := setSpeakingKey (Some key) (app s);
       queue := synthSpeak utterance q;
       created := S (created s) |}.

(** An utterance leaves the queue when the platform reports its end or an
    error. *)
Definition synthDone (id : nat) (q : list Utterance) : list Utterance :=
  filter (fun u => negb (utteranceId u =? id)%nat) q.

(** [utterance.onend] and [utterance.onerror]: both clear the speaking key
    whichever utterance they belong to. *)
Definition onEnd (id : nat) (s : Speech) : Speech :=
  {| app := setSpeakingKey None (app s);
     queue := synthDone id (queue s);
     created := created s |}.

Definition onError (id : nat) (s : Speech) : Speech :=
  {| app := setError (Some msgTts) (setSpeakingKey None (app s));
     queue := synthDone id (queue s);
     created := created s |}.

(** What happens to the component: a listen button is pressed, or the
    platform reports on the utterance with the given identity, which may
    be one that was cancelled. *)
Inductive SpeechEvent : Type :=
  | Listen (key textToSpeak : string)
  | Ended (id : nat)
  | Failed (id : nat).

Definition speechStep (voices : list string) (s : Speech) (e : SpeechEvent)
  : Speech :=
  match e with
  | Listen key textToSpeak => handleListen voices key textToSpeak s
  | Ended id => onEnd id s
  | Failed id => onError id s
  end.

Definition speechRun (voices : list string) (s : Speech)
  (events : list SpeechEvent) : Speech :=
  fold_left (speechStep voices) events s.

Definition initialSpeech : Speech :=
  {| app := initialApp; queue := []; created := O |}.

(** The test the card header makes to show a section as playing. *)
Definition isSpeaking (s : Speech) (key : string) : bool :=
  optionEqb (speakingKey (app s)) key.

(* ================================================================== *)
(** ** PDF export ([handleExportPdf]) *)
(* ================================================================== *)

Record Placed : Type := {
  placedText : string;
  placedX : Z;
  placedY : Z
}.

(** A jsPDF document: its pages in order, the last one being current.
    [new jsPDF()] has one empty page. *)
Definition PdfDoc : Type := list (list Placed).

Definition newPdf : PdfDoc := [[]].

Definition addPage (doc : PdfDoc) : PdfDoc := (doc ++ [[]])%list.

Fixpoint pdfText (line : string) (x y : Z) (doc : PdfDoc) : PdfDoc :=
  match doc with
  | [] => []
  | page :: rest =>
      match rest with
      | [] => [(page ++ [{| placedText := line; placedX := x; placedY := y |}])%list]
      | _ :: _ => page :: pdfText line x y rest
      end
  end.

Definition margin : Z := 15.
Definition lineHeight : Z := 7.

(** [y > pageHeight - margin] *)
Definition beyond (pageHeight : Q) (y : Z) : bool :=
  negb (Qle_bool (inject_Z y) (pageHeight - inject_Z margin)).

(** The callback of [textLines.forEach], on the document and the cursor. *)
Definition placeLine (pageHeight : Q) (acc : PdfDoc * Z) (line : string)
  : PdfDoc * Z :=
  let (doc, y) := acc in
  let (doc, y) :=
    if beyond pageHeight y then (addPage doc, margin) else (doc, y) in
  (pdfText line margin y doc, (y + lineHeight)%Z).

Definition paginate (pageHeight : Q) (textLines : list string) : PdfDoc :=
  fst (fold_left (placeLine pageHeight) textLines (newPdf, 15%Z)).

Section PdfExport.

Variable toUpperCaseLead : string -> string.

(** Page size and line splitting are jsPDF's: [pageHeight] is the height
    it reports and [splitTextToSize] its wrapping at the width
    [pageWidth - margin * 2]. *)
Variable pageHeight : Q.
Variable splitTextToSize : string -> list string.

(** [handleExportPdf]: the document saved as script.pdf, if any. *)
Definition handleExportPdf (generatedSections : option Sections)
  : option PdfDoc :=
  match generatedSections with
  | None => None
  | Some _ =>
      let fullText := getFullScriptText toUpperCaseLead generatedSections false in
      Some (paginate pageHeight (splitTextToSize fullText))
  end.

End PdfExport.

(* ================================================================== *)
(** ** The specification's wording, for comparison with the code *)
(* ================================================================== *)

Module Spec.

(** A blank idea: empty, or made of white-space characters only. *)
Definition whiteSpace : list string :=
  [ JS.bytes [9]; JS.bytes [10]; JS.bytes [11]; JS.bytes [12]; JS.bytes [13];
    JS.bytes [32]; JS.bytes [194; 160]; JS.bytes [225; 154; 128];
    JS.bytes [226; 128; 128]; JS.bytes [226; 128; 129];
    JS.bytes [226; 128; 130]; JS.bytes [226; 128; 131];
    JS.bytes [226; 128; 132]; JS.bytes [226; 128; 133];
    JS.bytes [226; 128; 134]; JS.bytes [226; 128; 135];
    JS.bytes [226; 128; 136]; JS.bytes [226; 128; 137];
    JS.bytes [226; 128; 138]; JS.bytes [226; 128; 168];
    JS.bytes [226; 128; 169]; JS.bytes [226; 128; 175];
    JS.bytes [226; 129; 159]; JS.bytes [227; 128; 128];
    JS.bytes [239; 187; 191] ].

Inductive Blank : string -> Prop :=
  | blank_empty : Blank EmptyString
  | blank_more w rest : In w whiteSpace -> Blank rest -> Blank (w ++ rest).

(** Title derivation: a space before every internal capital letter, then
    the first character capitalised. *)
Definition spaceBeforeInternalCapitals (s : string) : string :=
  match s with
  | EmptyString => EmptyString
  | String c r => String c (spaceBeforeCapitals r)
  end.

Definition capitalizeFirst (toUpperCaseLead : string -> string) (s : string)
  : string :=
  match s with
  | EmptyString => EmptyString
  | String c r =>
      if JS.code c <? 128 then String (JS.toUpperAscii c) r
      else toUpperCaseLead s
  end.

Definition titleDerivation (toUpperCaseLead : string -> string) (key : string)
  : string :=
  capitalizeFirst toUpperCaseLead (spaceBeforeInternalCapitals key).

(** One line per item, each behind the given prefix. *)
Fixpoint prefixedLines (pre : string) (items : list string) : string :=
  match items with
  | [] => EmptyString
  | [x] => pre ++ x
  | x :: rest => pre ++ x ++ JS.LF ++ prefixedLines pre rest
  end.

(** A text section: title, newline, body.  A visual section: title, the
    two labelled lists of dash-prefixed lines with a blank line between. *)
Definition sectionText (title : string) (value : GeneratedSectionValue) : string :=
  match value with
  | Text body => title ++ JS.LF ++ body
  | Visual v =>
      title ++ JS.LF
      ++ "Shot Suggestions:" ++ JS.LF ++ prefixedLines "- " (shotSuggestions v)
      ++ JS.LF ++ JS.LF
      ++ "B-Roll:" ++ JS.LF ++ prefixedLines "- " (bRoll v)
  end.

(** The sections in order, a blank line between two of them. *)
Fixpoint blankLineSeparated (texts : list string) : string :=
  match texts with
  | [] => EmptyString
  | [t] => t
  | t :: rest => t ++ JS.LF ++ JS.LF ++ blankLineSeparated rest
  end.

(** [s] occurs in [t]. *)
Definition contains (t s : string) : Prop :=
  exists before after, t = before ++ s ++ after.

(** The word-count value parses to a positive integer: after any white
    space and an optional plus sign it starts with a numeral that has a
    digit other than zero, decimal or, behind [0x] or [0X], hexadecimal;
    whatever follows the numeral is ignored. *)
Definition nonZeroDecimal : list ascii :=
  ["1"; "2"; "3"; "4"; "5"; "6"; "7"; "8"; "9"]%char.

Definition nonZeroHexadecimal : list ascii :=
  (nonZeroDecimal
   ++ ["a"; "b"; "c"; "d"; "e"; "f"; "A"; "B"; "C"; "D"; "E"; "F"]%char)%list.

Inductive Zeros : string -> Prop :=
  | zeros_none : Zeros EmptyString
  | zeros_more rest : Zeros rest -> Zeros (String "0" rest).

Definition positiveNumeral (body : string) : Prop :=
  exists zeros digit rest,
    Zeros zeros
    /\ ((In digit nonZeroDecimal /\ body = zeros ++ String digit rest)
        \/ (In digit nonZeroHexadecimal
            /\ (body = "0x" ++ zeros ++ String digit rest
                \/ body = "0X" ++ zeros ++ String digit rest))).

Definition positiveInteger (wc : string) : Prop :=
  exists space sign body,
    wc = space ++ sign ++ body
    /\ Blank space
    /\ (sign = EmptyString \/ sign = "+")
    /\ positiveNumeral body.

(** The style directive, present when the trimmed instructions are not
    empty. *)
Definition styleDirective (st : App) : string :=
  if JS.isEmpty (JS.trim (advancedInstructions st)) then EmptyString
  else JS.LF ++ JS.LF ++ "Advanced Instructions: "
       ++ JS.trim (advancedInstructions st).

(** The cursor after [k] lines on a page. *)
Definition cursorAt (k : nat) : Z := (margin + lineHeight * Z.of_nat k)%Z.

(** The number of cursor positions [margin + k * lineHeight] that are not
    beyond [pageHeight - margin]: the lines one page takes. *)
Definition pageCapacity (pageHeight : Q) : nat :=
  let limit := Qfloor (pageHeight - inject_Z margin) in
  if (limit <? margin)%Z then O
  else Z.to_nat ((limit - margin) / lineHeight + 1).

End Spec.

(* ================================================================== *)
(** ** The scenarios of the specification *)
(* ================================================================== *)

Module Scenario.

Definition quoted (s : string) : string := JS.DQ ++ s ++ JS.DQ.

Definition member (k v : string) : string := quoted k ++ ":" ++ v.

(** The reply payload of the flattening scenario. *)
Definition reply : string :=
  "{" ++ member "hook" (quoted "Try this!")
  ++ "," ++ member "introduction" (quoted "...")
  ++ "," ++ member "mainContent" (quoted "...")
  ++ "," ++ member "callToAction" (quoted "...")
  ++ "," ++ member "visualIdeas"
             ("{" ++ member "shotSuggestions" ("[" ++ quoted "wide shot" ++ "]")
              ++ "," ++ member "bRoll" ("[" ++ quoted "clouds" ++ "]") ++ "}")
  ++ "," ++ member "hashtags" (quoted "#coffee") ++ "}".

Definition ideas : VisualIdeas :=
  {| shotSuggestions := ["wide shot"]; bRoll := ["clouds"] |}.

Definition sections : Sections :=
  [ ("hook", Text "Try this!"); ("introduction", Text "...");
    ("mainContent", Text "..."); ("callToAction", Text "...");
    ("visualIdeas", Visual ideas); ("hashtags", Text "#coffee") ].

(** The form as filled in by the prompt scenario. *)
Definition form : App :=
  {| scriptContent := "A 30 second video about coffee"; wordCount := "50";
     advancedInstructions := EmptyString;
     selectedPlatforms := ["Instagram"];
     generatedSections := None; isLoading := false; error := None;
     copiedKey := None; selectedVoiceURI := None; speakingKey := None |}.

(** A reply that parses and has a hook only. *)
Definition hookOnlyReply : string := "{" ++ member "hook" (quoted "Try this!") ++ "}".

(** A refusal that still carries a main content. *)
Definition refusalReply : string :=
  "{" ++ member "hook" (quoted "CONTENT_VIOLATION")
  ++ "," ++ member "mainContent" (quoted "Some text") ++ "}".

End Scenario.

(* ================================================================== *)
(** ** The rest of the component *)
(* ================================================================== *)

Definition setSelectedPlatforms (v : list string) (st : App) : App :=
  {| scriptContent := scriptContent st; wordCount := wordCount st;
     advancedInstructions := advancedInstructions st;
     selectedPlatforms := v;
     generatedSections := generatedSections st; isLoading := isLoading st;
     error := error st; copiedKey := copiedKey st;
     selectedVoiceURI := selectedVoiceURI st; speakingKey := speakingKey st |}.

Definition setSelectedVoiceURI (v : option string) (st : App) : App :=
  {| scriptContent := scriptContent st; wordCount := wordCount st;
     advancedInstructions := advancedInstructions st;
     selectedPlatforms := selectedPlatforms st;
     generatedSections := generatedSections st; isLoading := isLoading st;
     error := error st; copiedKey := copiedKey st;
     selectedVoiceURI := v; speakingKey := speakingKey st |}.

(** *** Platform buttons ([handlePlatformToggle]) *)

(** The buttons the form shows. *)
Definition platforms : list string :=
  ["Instagram"; "YouTube"; "Facebook"; "TikTok"; "LinkedIn"; "Website"].

(** [prev.includes(platform)] *)
Definition includes (platform : string) (prev : list string) : bool :=
  existsb (String.eqb platform) prev.

(** The updater passed to [setSelectedPlatforms]. *)
Definition togglePlatform (platform : string) (prev : list string) : list string :=
  if includes platform prev
  then filter (fun p => negb (String.eqb p platform)) prev
  else (prev ++ [platform])%list.

Definition handlePlatformToggle (platform : string) (st : App) : App :=
  setSelectedPlatforms (togglePlatform platform (selectedPlatforms st)) st.

(** *** Voices ([loadVoices]) *)

Record Voice : Type := {
  voiceURI : string;
  voiceName : string;
  voiceLang : string
}.

(** A string state, such as [selectedVoiceURI] or [error], is falsy when
    it is undefined or null, or the empty string. *)
Definition falsy (v : option string) : bool :=
  match v with
  | None => true
  | Some s => JS.isEmpty s
  end.

(** [loadVoices], on the [voices] state and the component; the argument
    is what [speechSynthesis.getVoices()] returns. *)
Definition loadVoices (availableVoices : list Voice)
  (state : list Voice * App) : list Voice * App :=
  let (voices, st) := state in
  match availableVoices with
  | [] => (voices, st)
  | first :: _ =>
      (availableVoices,
       if falsy (selectedVoiceURI st) then
         let defaultVoice :=
           find (fun v => String.eqb (voiceLang v) "en-US") availableVoices in
         setSelectedVoiceURI
           (Some (match defaultVoice with
                  | Some v => voiceURI v
                  | None => voiceURI first
                  end)) st
       else st)
  end.

(** [handleListen] as the component calls it, on its [voices] state. *)
Definition listen (voices : list Voice) (key : string)
  (value : GeneratedSectionValue) (s : Speech) : Speech :=
  handleListen (map voiceURI voices) key (sectionSpeechText value) s.

(** *** What the results panel shows *)


(** *** The stored reply as a JavaScript value

    [setGeneratedSections(jsonResponse)] stores whatever the reply parsed
    to.  Every consumer first tests the stored value for truthiness
    ([!generatedSections], [generatedSections && ...]). *)

(** A number whose digits before the exponent are all zero. *)
Fixpoint zeroMantissa (lexeme : string) : bool :=
  match lexeme with
  | EmptyString => true
  | String c r =>
      if (JS.code c =? 101) || (JS.code c =? 69) then true
      else if JS.inRange 49 57 c then false
      else zeroMantissa r
  end.

Section Stored.

(** Conversion of numerals to doubles and back is the platform's:
    [roundsToZero] tells whether a numeral with a digit other than zero
    is still read as zero (underflow), [numberToString] is the text of the
    number a numeral is read as. *)
Variable roundsToZero : string -> bool.
Variable numberToString : string -> string.

Definition truthy (j : json) : bool :=
  match j with
  | JNull => false
  | JBool b => b
  | JNumber lexeme => negb (zeroMantissa lexeme || roundsToZero lexeme)
  | JString s => negb (JS.isEmpty s)
  | JArray _ => true
  | JObject _ => true
  end.


(** A call that returns or throws a TypeError. *)
Inductive completion (A : Type) : Type :=
  | Returns (a : A)
  | ThrowsTypeError.

Arguments Returns {A} a.
Arguments ThrowsTypeError {A}.

Definition andThen {A B : Type} (c : completion A) (k : A -> completion B)
  : completion B :=
  match c with
  | Returns a => k a
  | ThrowsTypeError => ThrowsTypeError
  end.

(** [Array.prototype.map] with a callback that may throw. *)
Fixpoint mapThrowing {A B : Type} (f : A -> completion B) (l : list A)
  : completion (list B) :=
  match l with
  | [] => Returns []
  | x :: rest =>
      andThen (f x) (fun y =>
      andThen (mapThrowing f rest) (fun ys => Returns (y :: ys)))
  end.

(** ToString of a parsed value, as a template literal applies it: an
    array joins its elements with commas, null elements giving nothing;
    an object is [object Object] unless an own [toString] property, which
    is never a function here, hides the inherited one. *)
Fixpoint toStringValue (j : json) : completion string :=
  match j with
  | JNull => Returns "null"
  | JBool true => Returns "true"
  | JBool false => Returns "false"
  | JNumber lexeme => Returns (numberToString lexeme)
  | JString s => Returns s
  | JArray items =>
      andThen
        ((fix elements (l : list json) : completion (list string) :=
            match l with
            | [] => Returns []
            | x :: rest =>
                andThen (match x with
                         | JNull => Returns EmptyString
                         | _ => toStringValue x
                         end) (fun y =>
                andThen (elements rest) (fun ys => Returns (y :: ys)))
            end) items)
        (fun texts => Returns (JS.join "," texts))
  | JObject props =>
      if Json.hasKey "toString" props then ThrowsTypeError
      else Returns "[object Object]"
  end.

(** The UTF-16 code units of a string, each as a string of its own: a
    character outside the basic plane gives its two surrogates. *)
Fixpoint codeUnits (s : string) : list string :=
  match s with
  | EmptyString => []
  | String c1 r1 =>
      if JS.inRange 192 223 c1 then
        match r1 with
        | String c2 r2 => String c1 (String c2 EmptyString) :: codeUnits r2
        | EmptyString => [String c1 EmptyString]
        end
      else if JS.inRange 224 239 c1 then
        match r1 with
        | String c2 (String c3 r3) =>
            String c1 (String c2 (String c3 EmptyString)) :: codeUnits r3
        | _ => [s]
        end
      else if JS.inRange 240 247 c1 then
        match r1 with
        | String c2 (String c3 (String c4 r4)) =>
            let cp := (((JS.code c1 - 240) * 64 + (JS.code c2 - 128)) * 64
                       + (JS.code c3 - 128)) * 64 + (JS.code c4 - 128) in
            Json.utf8 (55296 + (cp - 65536) / 1024)
            :: Json.utf8 (56320 + (cp - 65536) mod 1024)
            :: codeUnits r4
        | _ => [s]
        end
      else String c1 EmptyString :: codeUnits r1
  end.

Definition indexKey (i : nat) : string :=
  NilEmpty.string_of_uint (Nat.to_uint i).

Fixpoint indexed {A : Type} (i : nat) (l : list A) : list (string * A) :=
  match l with
  | [] => []
  | x :: rest => (indexKey i, x) :: indexed (S i) rest
  end.

(** [Object.entries] of a stored value. *)
Definition objectEntries (j : json) : list (string * json) :=
  match j with
  | JObject props => props
  | JArray items => indexed 0 items
  | JString s => indexed 0 (map JString (codeUnits s))
  | _ => []
  end.

Variable toUpperCaseLead : string -> string.

(** [visualIdeas.shotSuggestions.map(s => `- ${s}`).join('\n')] on whatever
    the property holds: only an array has a [map] to call. *)
Definition dashedProperty (property : option json) : completion string :=
  match property with
  | Some (JArray items) =>
      andThen (mapThrowing (fun s => andThen (toStringValue s)
                                       (fun t => Returns ("- " ++ t))) items)
              (fun texts => Returns (JS.join JS.LF texts))
  | _ => ThrowsTypeError
  end.

(** The callback of [.map] in [getFullScriptText], on a stored value. *)
Definition renderStoredEntry (entry : string * json) : completion string :=
  let (key, value) := entry in
  let title := formatTitle toUpperCaseLead key in
  match value with
  | JString body => Returns (title ++ JS.LF ++ body)
  | JObject props =>
      andThen (dashedProperty (Json.lookup "shotSuggestions" props)) (fun shots =>
      andThen (dashedProperty (Json.lookup "bRoll" props)) (fun bRolls =>
      Returns (title ++ JS.LF ++ "Shot Suggestions:" ++ JS.LF ++ shots
                     ++ JS.LF ++ JS.LF ++ "B-Roll:" ++ JS.LF ++ bRolls)))
  | JArray _ => dashedProperty None
  | _ => Returns EmptyString
  end.

(** [getFullScriptText] on the stored value, whatever it is. *)
Definition getStoredScriptText (stored : option json) : completion string :=
  match stored with
  | None => Returns EmptyString
  | Some j =>
      if truthy j then
        andThen (mapThrowing renderStoredEntry (objectEntries j))
                (fun texts => Returns (JS.join (JS.LF ++ JS.LF) texts))
      else Returns EmptyString
  end.

End Stored.

Arguments Returns {A} a.
Arguments ThrowsTypeError {A}.


(** *** Word document ([handleExportDocx]) *)

(** [String.prototype.split] at line feeds. *)
Fixpoint splitLines (s : string) : list string :=
  match s with
  | EmptyString => [EmptyString]
  | String c r =>
      if JS.code c =? 10 then EmptyString :: splitLines r
      else match splitLines r with
           | line :: rest => String c line :: rest
           | [] => [String c EmptyString]
           end
  end.

(** The paragraphs the export builds: the section heading (bold, size 28,
    heading level 1, 200 after), a plain run, a bold label with its
    spacing before, a bullet of level 0 and the empty paragraph. *)
Inductive DocxParagraph : Type :=
  | Heading (text : string)
  | Plain (text : string)
  | Label (text : string) (before : N)
  | Bullet (text : string)
  | EmptyParagraph.

Section Documents.

Variable toUpperCaseLead : string -> string.

(** The callback of [Object.entries(generatedSections).forEach]. *)
Definition docxSection (entry : string * GeneratedSectionValue)
  : list DocxParagraph :=
  let (key, value) := entry in
  (Heading (formatTitle toUpperCaseLead key)
   :: match value with
      | Text body => map Plain (splitLines body)
      | Visual visualIdeas =>
          Label "Shot Suggestions" 0
          :: map Bullet (shotSuggestions visualIdeas)
          ++ Label "B-Roll" 200
          :: map Bullet (bRoll visualIdeas)
      end
   ++ [EmptyParagraph])%list.

(** [handleExportDocx]: the children of the one section of the document
    saved as script.docx, if any. *)
Definition handleExportDocx (generatedSections : option Sections)
  : option (list DocxParagraph) :=
  match generatedSections with
  | None => None
  | Some entries => Some (flat_map docxSection entries)
  end.

(** *** Sharing ([handleShare]) *)

Record ShareData : Type := {
  shareTitle : string;
  shareText : string
}.

Definition msgShare : string := "Could not share the script.".

(** [handleShare]: [share] tells whether [navigator.share] resolves; the
    second component lists what was handed to it. *)
Definition handleShare (isShareSupported : bool) (share : ShareData -> bool)
  (generatedSections : option Sections) (st : App) : App * list ShareData :=
  match generatedSections with
  | None => (st, [])
  | Some _ =>
      if negb isShareSupported then (st, [])
      else
        let data :=
          {| shareTitle := "AI Generated Script";
             shareText := getFullScriptText toUpperCaseLead generatedSections true |} in
        if share data then (st, [data])
        else (setError (Some msgShare) st, [data])
  end.

End Documents.

(** *** Comparison definitions for the properties below *)

Module Extra.

(** The text of every line of a PDF, page after page. *)
Definition pdfLines (doc : PdfDoc) : list string :=
  map placedText (concat doc).

(** The lines of a page from cursor position [k] on. *)
Fixpoint placeFrom (k : nat) (textLines : list string) : list Placed :=
  match textLines with
  | [] => []
  | line :: rest =>
      {| placedText := line; placedX := margin; placedY := Spec.cursorAt k |}
      :: placeFrom (S k) rest
  end.

(** A line between the top and the bottom margin. *)
Definition insideMargins (pageHeight : Q) (p : Placed) : Prop :=
  placedX p = margin
  /\ (margin <= placedY p)%Z
  /\ (inject_Z (placedY p) <= pageHeight - inject_Z margin)%Q.

Definition headings (paragraphs : list DocxParagraph) : list string :=
  flat_map (fun p => match p with Heading t => [t] | _ => [] end) paragraphs.

Definition bullets (paragraphs : list DocxParagraph) : list string :=
  flat_map (fun p => match p with Bullet t => [t] | _ => [] end) paragraphs.

Definition plainLines (paragraphs : list DocxParagraph) : list string :=
  flat_map (fun p => match p with Plain t => [t] | _ => [] end) paragraphs.

(** The strings a section holds: its body, or its shots and b-roll. *)
Definition contents (value : GeneratedSectionValue) : list string :=
  match value with
  | Text body => [body]
  | Visual v => (shotSuggestions v ++ bRoll v)%list
  end.

(** A string whose first byte, if any, is ASCII. *)
Definition asciiLead (s : string) : Prop :=
  match s with
  | EmptyString => True
  | String c _ => JS.code c < 128
  end.

(** The number of line feeds of a string. *)
Fixpoint lineFeeds (s : string) : nat :=
  match s with
  | EmptyString => O
  | String c r => if JS.code c =? 10 then S (lineFeeds r) else lineFeeds r
  end.

End Extra.

(* ================================================================== *)
(** * Properties *)
(* ================================================================== *)

(** ** Strings *)

Lemma append_nil_r (s : string) : s ++ EmptyString = s.
Proof. induction s as [|c s IH]; simpl; [reflexivity | now rewrite IH]. Qed.

Lemma append_assoc (a b c : string) : (a ++ b) ++ c = a ++ b ++ c.
Proof. induction a as [|x a IH]; simpl; [reflexivity | now rewrite IH]. Qed.

Lemma length_append (a b : string) :
  String.length (a ++ b) = (String.length a + String.length b)%nat.
Proof. induction a as [|x a IH]; simpl; [reflexivity | now rewrite IH]. Qed.

Lemma join_concat (sep : string) (xs : list string) :
  JS.join sep xs = String.concat sep xs.
Proof.
  induction xs as [|x rest IH]; [reflexivity|].
  destruct rest as [|y rest]; [reflexivity|].
  change (x ++ sep ++ JS.join sep (y :: rest) = x ++ sep ++ String.concat sep (y :: rest)).
  now rewrite IH.
Qed.

Lemma join_cons2 (sep x y : string) (rest : list string) :
  JS.join sep (x :: y :: rest) = x ++ sep ++ JS.join sep (y :: rest).
Proof. reflexivity. Qed.

Lemma join_app (sep : string) (xs ys : list string) :
  xs <> [] -> ys <> [] ->
  JS.join sep (xs ++ ys) = JS.join sep xs ++ sep ++ JS.join sep ys.
Proof.
  intros Hx Hy. induction xs as [|x xs IH]; [congruence|].
  destruct xs as [|x' xs].
  - destruct ys as [|y ys]; [congruence | reflexivity].
  - change (x ++ sep ++ JS.join sep ((x' :: xs) ++ ys)
            = (x ++ sep ++ JS.join sep (x' :: xs)) ++ sep ++ JS.join sep ys).
    rewrite IH by discriminate. now rewrite !append_assoc.
Qed.

(** ** The primitives at work *)

Example parseInt_50 : JS.parseInt "50" = Some 50%Z.
Proof. reflexivity. Qed.

Example parseInt_prefix : JS.parseInt "  12px" = Some 12%Z.
Proof. reflexivity. Qed.

Example parseInt_fraction : JS.parseInt "0.5" = Some 0%Z.
Proof. reflexivity. Qed.

Example parseInt_hex : JS.parseInt "0x1F" = Some 31%Z.
Proof. reflexivity. Qed.

Example parseInt_none : JS.parseInt "words" = None.
Proof. reflexivity. Qed.

Example trim_both : JS.trim "  a b  " = "a b".
Proof. reflexivity. Qed.

Example trim_nbsp : JS.trim (JS.bytes [194; 160; 32; 226; 128; 168]) = EmptyString.
Proof. reflexivity. Qed.

Example parse_scalars :
  Json.parse " 12 " = Some (JNumber "12")
  /\ Json.parse "-2.5e3" = Some (JNumber "-2.5e3")
  /\ Json.parse "null" = Some JNull
  /\ Json.parse "[true, false]" = Some (JArray [JBool true; JBool false]).
Proof. repeat split; vm_compute; reflexivity. Qed.

Example parse_rejects :
  Json.parse "[1,]" = None /\ Json.parse "01" = None
  /\ Json.parse "{} x" = None /\ Json.parse "nul" = None
  /\ Json.parse EmptyString = None /\ Json.parse "{hook:1}" = None.
Proof. repeat split; vm_compute; reflexivity. Qed.

(** A repeated key keeps its first place and its last value; an array
    index comes before the other keys. *)
Example parse_property_order :
  Json.parse (Scenario.hookOnlyReply) = Some (JObject [("hook", JString "Try this!")])
  /\ Json.parse ("{" ++ Scenario.member "a" "1" ++ "," ++ Scenario.member "7" "2"
                 ++ "," ++ Scenario.member "a" "3" ++ "}")
     = Some (JObject [("7", JNumber "2"); ("a", JNumber "3")]).
Proof. repeat split; vm_compute; reflexivity. Qed.

Example parse_escapes :
  Json.parse (Scenario.quoted "a\u0041\n\u00e9")
  = Some (JString ("aA" ++ JS.LF ++ JS.bytes [195; 169])).
Proof. vm_compute. reflexivity. Qed.

(** ** The fuel of the JSON parser *)

Lemma skipWs_length (s : string) :
  (String.length (Json.skipWs s) <= String.length s)%nat.
Proof.
  induction s as [|c r IH]; [apply le_n|].
  simpl. destruct (Json.isJsonWs c); simpl; lia.
Qed.

Lemma takeDigits_length (s : string) :
  (String.length (fst (Json.takeDigits s)) + String.length (snd (Json.takeDigits s))
   = String.length s)%nat.
Proof.
  induction s as [|c r IH]; [reflexivity|].
  simpl. destruct (JS.inRange 48 57 c); [|reflexivity].
  destruct (Json.takeDigits r) as [d rest]. simpl in *. lia.
Qed.

Lemma takeDigits_rest (s d r : string) :
  Json.takeDigits s = (d, r) ->
  (String.length d + String.length r = String.length s)%nat.
Proof.
  intros H. pose proof (takeDigits_length s) as L. now rewrite H in L.
Qed.

Lemma lexSign_length (s sign rest : string) :
  Json.lexSign s = (sign, rest) -> (String.length rest <= String.length s)%nat.
Proof.
  destruct s as [|c r]; simpl; [intros [= <- <-]; apply le_n|].
  destruct (JS.code c =? 45); intros [= <- <-]; simpl; lia.
Qed.

Lemma lexFraction_length (s f rest : string) :
  Json.lexFraction s = Some (f, rest) ->
  (String.length rest <= String.length s)%nat.
Proof.
  destruct s as [|c r]; simpl; [intros [= <- <-]; apply le_n|].
  destruct (JS.code c =? 46); [|intros [= <- <-]; apply le_n].
  destruct (Json.takeDigits r) as [d rest'] eqn:E. apply takeDigits_rest in E.
  destruct (JS.isEmpty d); [discriminate|]. intros [= <- <-]. lia.
Qed.

Lemma lexExponentSign_length (s sign rest : string) :
  Json.lexExponentSign s = (sign, rest) ->
  (String.length rest <= String.length s)%nat.
Proof.
  destruct s as [|c r]; simpl; [intros [= <- <-]; apply le_n|].
  destruct ((JS.code c =? 43) || (JS.code c =? 45)); intros [= <- <-]; simpl; lia.
Qed.

Lemma lexExponent_length (s e rest : string) :
  Json.lexExponent s = Some (e, rest) ->
  (String.length rest <= String.length s)%nat.
Proof.
  destruct s as [|c r]; simpl; [intros [= <- <-]; apply le_n|].
  destruct ((JS.code c =? 101) || (JS.code c =? 69)); [|intros [= <- <-]; apply le_n].
  destruct (Json.lexExponentSign r) as [sg r'] eqn:Es.
  apply lexExponentSign_length in Es.
  destruct (Json.takeDigits r') as [d rest'] eqn:E. apply takeDigits_rest in E.
  destruct (JS.isEmpty d); [discriminate|]. intros [= <- <-]. lia.
Qed.

Lemma lexNumber_length (s lexeme rest : string) :
  Json.lexNumber s = Some (lexeme, rest) ->
  (String.length rest < String.length s)%nat.
Proof.
  unfold Json.lexNumber.
  destruct (Json.lexSign s) as [sign s1] eqn:E0. apply lexSign_length in E0.
  destruct (Json.takeDigits s1) as [int s2] eqn:E1. apply takeDigits_rest in E1.
  destruct int as [|d more]; [discriminate|]. simpl in E1.
  destruct ((JS.code d =? 48) && negb (JS.isEmpty more)); [discriminate|].
  destruct (Json.lexFraction s2) as [[f s3]|] eqn:E2; [|discriminate].
  apply lexFraction_length in E2.
  destruct (Json.lexExponent s3) as [[e s4]|] eqn:E3; [|discriminate].
  apply lexExponent_length in E3. intros [= <- <-]. lia.
Qed.

Lemma consItem_rest (i : Json.strItem) (r : option (list Json.strItem * string))
  (items : list Json.strItem) (rest : string) :
  Json.consItem i r = Some (items, rest) ->
  exists items', r = Some (items', rest).
Proof.
  destruct r as [[items' rest']|]; simpl; [|discriminate].
  intros [= <- <-]. now exists items'.
Qed.

Lemma lexStringBody_length (n : nat) :
  forall s items rest,
    (String.length s <= n)%nat ->
    Json.lexStringBody s = Some (items, rest) ->
    (String.length rest < String.length s)%nat.
Proof.
  induction n as [|n IH]; intros s items rest Hn H.
  - destruct s; [discriminate|simpl in Hn; lia].
  - destruct s as [|c r]; [discriminate|]. simpl in Hn. cbn [Json.lexStringBody] in H.
    destruct (JS.code c =? 34); [inversion H; subst; simpl; lia|].
    destruct (JS.code c =? 92).
    + destruct r as [|e r1]; [discriminate|]. simpl in Hn.
      destruct (JS.code e =? 117).
      * destruct r1 as [|h1 [|h2 [|h3 [|h4 r2]]]]; try discriminate.
        destruct (Json.hex4 h1 h2 h3 h4); [|discriminate].
        apply consItem_rest in H. destruct H as (items' & H).
        apply IH in H; simpl in *; lia.
      * destruct (Json.simpleEscape e); [|discriminate].
        apply consItem_rest in H. destruct H as (items' & H).
        apply IH in H; simpl in *; lia.
    + destruct (JS.code c <? 32); [discriminate|].
      apply consItem_rest in H. destruct H as (items' & H).
      apply IH in H; simpl in *; lia.
Qed.

Lemma lexString_length (s str rest : string) :
  Json.lexString s = Some (str, rest) ->
  (String.length rest < String.length s)%nat.
Proof.
  unfold Json.lexString.
  destruct (Json.lexStringBody s) as [[items rest']|] eqn:E; [|discriminate].
  intros [= <- <-]. exact (lexStringBody_length _ _ _ _ (le_n _) E).
Qed.

Lemma stripPrefix_length (p : string) :
  forall s rest,
    Json.stripPrefix p s = Some rest ->
    (String.length rest + String.length p = String.length s)%nat.
Proof.
  induction p as [|a p IH]; intros s rest H.
  - inversion H; subst. simpl. lia.
  - destruct s as [|b s]; [discriminate|]. simpl in H.
    destruct (Ascii.eqb a b); [|discriminate].
    apply IH in H. simpl. lia.
Qed.

Lemma lexScalar_length (s : string) (v : json) (rest : string) :
  Json.lexScalar s = Some (v, rest) ->
  (String.length rest < String.length s)%nat.
Proof.
  unfold Json.lexScalar. destruct s as [|c r]; [discriminate|].
  destruct (JS.code c =? 34).
  - destruct (Json.lexString r) as [[str rest']|] eqn:E; [|discriminate].
    apply lexString_length in E. intros [= <- <-]. simpl. lia.
  - destruct (Json.stripPrefix "true" (String c r)) as [r1|] eqn:E1.
    { apply stripPrefix_length in E1. intros [= <- <-]. simpl in *. lia. }
    destruct (Json.stripPrefix "false" (String c r)) as [r2|] eqn:E2.
    { apply stripPrefix_length in E2. intros [= <- <-]. simpl in *. lia. }
    destruct (Json.stripPrefix "null" (String c r)) as [r3|] eqn:E3.
    { apply stripPrefix_length in E3. intros [= <- <-]. simpl in *. lia. }
    destruct (Json.lexNumber (String c r)) as [[lexeme r4]|] eqn:E4; [|discriminate].
    apply lexNumber_length in E4. intros [= <- <-]. exact E4.
Qed.

Lemma skipWs_cons (s : string) (c : ascii) (r : string) :
  Json.skipWs s = String c r -> (String.length r < String.length s)%nat.
Proof.
  intros H. pose proof (skipWs_length s) as L. rewrite H in L. simpl in L. lia.
Qed.

Lemma parse_fueled (fuel : nat) :
  (forall s, (2 * String.length s + 2 <= fuel)%nat ->
             Json.fueled (Json.parseValue fuel s) s)
  /\ (forall s acc, (2 * String.length s + 3 <= fuel)%nat ->
                    Json.fueled (Json.parseElements fuel s acc) s)
  /\ (forall s acc, (2 * String.length s + 3 <= fuel)%nat ->
                    Json.fueled (Json.parseMembers fuel s acc) s).
Proof.
  induction fuel as [|fuel (IHv & IHe & IHm)].
  - repeat split; intros; lia.
  - split; [|split].
    + intros s Hf. cbn [Json.parseValue].
      destruct (Json.skipWs s) as [|c r] eqn:Es; [exact I|].
      apply skipWs_cons in Es.
      destruct (JS.code c =? 123).
      { destruct (Json.skipWs r) as [|c' r'] eqn:Er; [exact I|].
        apply skipWs_cons in Er.
        destruct (JS.code c' =? 125); [simpl; lia|].
        specialize (IHm r []). destruct (Json.parseMembers fuel r []);
          simpl in *; [|exact I|]; (assert (H : (2 * String.length r + 3 <= fuel)%nat) by lia);
          specialize (IHm H); [lia|exact IHm]. }
      destruct (JS.code c =? 91).
      { destruct (Json.skipWs r) as [|c' r'] eqn:Er; [exact I|].
        apply skipWs_cons in Er.
        destruct (JS.code c' =? 93); [simpl; lia|].
        specialize (IHe r []). destruct (Json.parseElements fuel r []);
          simpl in *; [|exact I|]; (assert (H : (2 * String.length r + 3 <= fuel)%nat) by lia);
          specialize (IHe H); [lia|exact IHe]. }
      destruct (Json.lexScalar (String c r)) as [[v rest]|] eqn:El; [|exact I].
      apply lexScalar_length in El. simpl in *. lia.
    + intros s acc Hf. cbn [Json.parseElements].
      pose proof (IHv s) as Hv.
      destruct (Json.parseValue fuel s) as [v rest| |]; [|exact I|apply Hv; lia].
      assert (Hrest : (String.length rest < String.length s)%nat) by (apply Hv; lia).
      destruct (Json.skipWs rest) as [|c r] eqn:Er; [exact I|].
      apply skipWs_cons in Er.
      destruct (JS.code c =? 44).
      { specialize (IHe r (v :: acc)).
        destruct (Json.parseElements fuel r (v :: acc)); simpl in *;
          [|exact I|]; (assert (H : (2 * String.length r + 3 <= fuel)%nat) by lia);
          specialize (IHe H); [lia|exact IHe]. }
      destruct (JS.code c =? 93); [simpl; lia|exact I].
    + intros s acc Hf. cbn [Json.parseMembers].
      destruct (Json.skipWs s) as [|q r] eqn:Es; [exact I|].
      apply skipWs_cons in Es.
      destruct (JS.code q =? 34); [|exact I].
      destruct (Json.lexString r) as [[k r1]|] eqn:Ek; [|exact I].
      apply lexString_length in Ek.
      destruct (Json.skipWs r1) as [|c r2] eqn:E1; [exact I|].
      apply skipWs_cons in E1.
      destruct (JS.code c =? 58); [|exact I].
      pose proof (IHv r2) as Hv.
      destruct (Json.parseValue fuel r2) as [v r3| |]; [|exact I|apply Hv; lia].
      assert (Hr3 : (String.length r3 < String.length r2)%nat) by (apply Hv; lia).
      destruct (Json.skipWs r3) as [|c' r4] eqn:E3; [exact I|].
      apply skipWs_cons in E3.
      destruct (JS.code c' =? 44).
      { specialize (IHm r4 (Json.defineProperty k v acc)).
        destruct (Json.parseMembers fuel r4 (Json.defineProperty k v acc)); simpl in *;
          [|exact I|]; (assert (H : (2 * String.length r4 + 3 <= fuel)%nat) by lia);
          specialize (IHm H); [lia|exact IHm]. }
      destruct (JS.code c' =? 125); [simpl; lia|exact I].
Qed.

(** More fuel does not change an outcome that did not lack it. *)
Lemma parse_stable (fuel : nat) :
  (forall s, Json.parseValue fuel s <> Json.OutOfFuel ->
             Json.parseValue (S fuel) s = Json.parseValue fuel s)
  /\ (forall s acc, Json.parseElements fuel s acc <> Json.OutOfFuel ->
                    Json.parseElements (S fuel) s acc = Json.parseElements fuel s acc)
  /\ (forall s acc, Json.parseMembers fuel s acc <> Json.OutOfFuel ->
                    Json.parseMembers (S fuel) s acc = Json.parseMembers fuel s acc).
Proof.
  induction fuel as [|fuel (IHv & IHe & IHm)].
  - repeat split; intros; simpl in *; congruence.
  - split; [|split].
    + intros s H. cbn [Json.parseValue] in *.
      destruct (Json.skipWs s) as [|c r]; [reflexivity|].
      destruct (JS.code c =? 123).
      { destruct (Json.skipWs r) as [|c' r']; [reflexivity|].
        destruct (JS.code c' =? 125); [reflexivity|]. now apply IHm. }
      destruct (JS.code c =? 91); [|reflexivity].
      destruct (Json.skipWs r) as [|c' r']; [reflexivity|].
      destruct (JS.code c' =? 93); [reflexivity|]. now apply IHe.
    + intros s acc H.
      change (Json.parseElements (S (S fuel)) s acc)
        with (match Json.parseValue (S fuel) s with
              | Json.Parsed v rest =>
                  match Json.skipWs rest with
                  | String c r =>
                      if JS.code c =? 44 then Json.parseElements (S fuel) r (v :: acc)
                      else if JS.code c =? 93
                           then Json.Parsed (JArray (List.rev (v :: acc))) r
                           else Json.Malformed
                  | EmptyString => Json.Malformed
                  end
              | Json.Malformed => Json.Malformed
              | Json.OutOfFuel => Json.OutOfFuel
              end).
      cbn [Json.parseElements] in H |- *.
      rewrite IHv by (intros E; rewrite E in H; congruence).
      destruct (Json.parseValue fuel s) as [v rest| |]; try reflexivity.
      destruct (Json.skipWs rest) as [|c r]; [reflexivity|].
      destruct (JS.code c =? 44); [|reflexivity]. now apply IHe.
    + intros s acc H.
      change (Json.parseMembers (S (S fuel)) s acc)
        with (match Json.skipWs s with
              | String q r =>
                  if JS.code q =? 34 then
                    match Json.lexString r with
                    | Some (k, r1) =>
                        match Json.skipWs r1 with
                        | String c r2 =>
                            if JS.code c =? 58 then
                              match Json.parseValue (S fuel) r2 with
                              | Json.Parsed v r3 =>
                                  match Json.skipWs r3 with
                                  | String c' r4 =>
                                      if JS.code c' =? 44
                                      then Json.parseMembers (S fuel) r4
                                             (Json.defineProperty k v acc)
                                      else if JS.code c' =? 125
                                      then Json.Parsed
                                             (JObject (Json.defineProperty k v acc)) r4
                                      else Json.Malformed
                                  | EmptyString => Json.Malformed
                                  end
                              | Json.Malformed => Json.Malformed
                              | Json.OutOfFuel => Json.OutOfFuel
                              end
                            else Json.Malformed
                        | EmptyString => Json.Malformed
                        end
                    | None => Json.Malformed
                    end
                  else Json.Malformed
              | EmptyString => Json.Malformed
              end).
      cbn [Json.parseMembers] in H |- *.
      destruct (Json.skipWs s) as [|q r]; [reflexivity|].
      destruct (JS.code q =? 34); [|reflexivity].
      destruct (Json.lexString r) as [[k r1]|]; [|reflexivity].
      destruct (Json.skipWs r1) as [|c r2]; [reflexivity|].
      destruct (JS.code c =? 58); [|reflexivity].
      rewrite IHv by (intros E; rewrite E in H; congruence).
      destruct (Json.parseValue fuel r2) as [v r3| |]; try reflexivity.
      destruct (Json.skipWs r3) as [|c' r4]; [reflexivity|].
      destruct (JS.code c' =? 44); [|reflexivity]. now apply IHm.
Qed.

(** The fuel [JSON.parse] is run with is enough for every text, and any
    larger amount gives the same outcome. *)
Lemma parse_fuel_adequate (text : string) (extra : nat) :
  Json.parseValue (Json.parseFuel text) text <> Json.OutOfFuel
  /\ Json.parseValue (Json.parseFuel text + extra) text
     = Json.parseValue (Json.parseFuel text) text.
Proof.
  assert (H : Json.parseValue (Json.parseFuel text) text <> Json.OutOfFuel).
  { pose proof (proj1 (parse_fueled (Json.parseFuel text)) text (le_n _)) as F.
    intros E. rewrite E in F. exact F. }
  split; [exact H|].
  induction extra as [|extra IH]; [now rewrite Nat.add_0_r|].
  rewrite Nat.add_succ_r, <- IH. apply (proj1 (parse_stable _)). now rewrite IH.
Qed.

(** ** Titles *)

Section TitleFacts.

Variable up : string -> string.

Lemma upperFirst_capitalizeFirst (s : string) :
  upperFirst up s = Spec.capitalizeFirst up s.
Proof.
  destruct s as [|c r]; [reflexivity|]. unfold upperFirst, Spec.capitalizeFirst.
  destruct ((JS.code c =? 10) || (JS.code c =? 13)) eqn:E; [|reflexivity].
  assert (Hc : JS.code c = 10 \/ JS.code c = 13).
  { apply orb_true_iff in E. destruct E as [E|E]; apply N.eqb_eq in E; auto. }
  assert (Hlt : (JS.code c <? 128) = true) by (apply N.ltb_lt; lia).
  rewrite Hlt. unfold JS.toUpperAscii, JS.inRange.
  replace (97 <=? JS.code c) with false; [reflexivity|].
  symmetry. apply N.leb_gt. lia.
Qed.

Lemma spaceBeforeCapitals_head (c : ascii) (r : string) :
  isCapital c = false ->
  spaceBeforeCapitals (String c r) = Spec.spaceBeforeInternalCapitals (String c r).
Proof. intros H. simpl. now rewrite H. Qed.

Lemma formatTitle_titleDerivation (s : string) :
  match s with
  | EmptyString => True
  | String c _ => isCapital c = false
  end ->
  formatTitle up s = Spec.titleDerivation up s.
Proof.
  intros H. unfold formatTitle, Spec.titleDerivation.
  rewrite upperFirst_capitalizeFirst. destruct s as [|c r]; [reflexivity|].
  now rewrite spaceBeforeCapitals_head.
Qed.

Lemma formatTitle_capital (c : ascii) (r : string) :
  isCapital c = true ->
  formatTitle up (String c r) = String " " (String c (spaceBeforeCapitals r)).
Proof. intros H. unfold formatTitle. simpl. now rewrite H. Qed.

End TitleFacts.

(** C4 (as amended).  [formatTitle] is a total function that, on every
    string that does not start with a capital letter A-Z, is the title
    derivation of the specification: a space before every internal capital
    letter, then the first character capitalised.  It maps mainContent to
    Main Content, callToAction to Call To Action and hashtags to Hashtags. *)
Theorem formatTitle_derivation :
  forall (up : string -> string) (key : string),
    startsWithCapital key = false ->
    formatTitle up key = Spec.titleDerivation up key
    /\ formatTitle up "mainContent" = "Main Content"
    /\ formatTitle up "callToAction" = "Call To Action"
    /\ formatTitle up "hashtags" = "Hashtags".
Proof.
  intros up key H. split; [|repeat split; reflexivity].
  apply formatTitle_titleDerivation. destruct key; [exact I | exact H].
Qed.

Lemma formatTitle_derivation_witness :
  startsWithCapital "visualIdeas" = false
  /\ formatTitle (fun s => s) "visualIdeas" = Spec.titleDerivation (fun s => s) "visualIdeas".
Proof.
  split; [reflexivity|].
  apply (formatTitle_derivation (fun s => s) "visualIdeas"). reflexivity.
Defined.

(** C4 (as stated) fails on a key that starts with a capital letter: the
    specification's derivation leaves Hook as it is, [formatTitle] puts a
    space in front of it. *)
Lemma formatTitle_not_derivation :
  ~ (forall (up : string -> string) (key : string),
       formatTitle up key = Spec.titleDerivation up key).
Proof.
  intros H. specialize (H (fun s => s) "Hook"). vm_compute in H. discriminate H.
Qed.

(** C9.  A title that starts with a capital letter gets a space in front
    of it, the first-character capitalisation falling on that space; a
    title that starts with any other ASCII character keeps that character,
    upper-cased, in front.  Hook becomes [" Hook"]. *)
Theorem formatTitle_leading_space :
  forall (up : string -> string) (c : ascii) (r : string),
    (isCapital c = true ->
       formatTitle up (String c r) = String " " (String c (spaceBeforeCapitals r)))
    /\ (isCapital c = false ->
          formatTitle up (String c r)
          = upperFirst up (String c (spaceBeforeCapitals r)))
    /\ (isCapital c = false -> JS.code c < 128 ->
          formatTitle up (String c r)
          = String (JS.toUpperAscii c) (spaceBeforeCapitals r))
    /\ formatTitle up "Hook" = " Hook".
Proof.
  intros up c r. split; [apply formatTitle_capital|].
  split; [intros Hc; unfold formatTitle; simpl; now rewrite Hc|].
  split; [|reflexivity].
  intros Hc Hlt. unfold formatTitle. rewrite upperFirst_capitalizeFirst.
  simpl. rewrite Hc. simpl. apply N.ltb_lt in Hlt. now rewrite Hlt.
Qed.

Lemma formatTitle_leading_space_witness :
  isCapital "H" = true
  /\ formatTitle (fun s => s) "Hook" = " Hook"
  /\ isCapital "h" = false /\ JS.code "h" < 128
  /\ formatTitle (fun s => s) "hook" = "Hook".
Proof.
  destruct (formatTitle_leading_space (fun s => s) "H" "ook") as [H1 _].
  destruct (formatTitle_leading_space (fun s => s) "h" "ook") as (_ & _ & H2 & _).
  split; [reflexivity|]. split; [exact (H1 eq_refl)|].
  split; [reflexivity|]. split; [reflexivity|]. exact (H2 eq_refl eq_refl).
Defined.

(** ** Text flattening *)

Lemma dashed_prefixedLines (items : list string) :
  dashed items = Spec.prefixedLines "- " items.
Proof.
  unfold dashed. induction items as [|x rest IH]; [reflexivity|].
  destruct rest as [|y rest]; [reflexivity|].
  simpl map in *. rewrite join_cons2, IH. reflexivity.
Qed.

Lemma join_prefixedLines (items : list string) :
  JS.join JS.LF items = Spec.prefixedLines EmptyString items.
Proof.
  induction items as [|x rest IH]; [reflexivity|].
  destruct rest as [|y rest]; [reflexivity|].
  rewrite join_cons2, IH. reflexivity.
Qed.

Lemma join_blankLineSeparated (texts : list string) :
  JS.join (JS.LF ++ JS.LF) texts = Spec.blankLineSeparated texts.
Proof.
  induction texts as [|x rest IH]; [reflexivity|].
  destruct rest as [|y rest]; [reflexivity|].
  rewrite join_cons2, IH. reflexivity.
Qed.

Lemma renderEntry_sectionText (up : string -> string) (key : string)
  (value : GeneratedSectionValue) :
  renderEntry up (key, value) = Spec.sectionText (formatTitle up key) value.
Proof.
  destruct value as [body|v]; [reflexivity|].
  unfold renderEntry, Spec.sectionText. now rewrite !dashed_prefixedLines.
Qed.

Lemma scenario_parses :
  Json.parse Scenario.reply
  = Some (JObject
      [ ("hook", JString "Try this!"); ("introduction", JString "...");
        ("mainContent", JString "..."); ("callToAction", JString "...");
        ("visualIdeas",
         JObject [ ("shotSuggestions", JArray [JString "wide shot"]);
                   ("bRoll", JArray [JString "clouds"]) ]);
        ("hashtags", JString "#coffee") ]).
Proof. vm_compute. reflexivity. Qed.

Lemma scenario_document (provider : Request -> ProviderResult) :
  provider (buildRequest Scenario.form) = Resolves (Some Scenario.reply) ->
  document (fst (handleGenerate provider Scenario.form)) = Some Scenario.sections.
Proof.
  intros H. unfold handleGenerate.
  change (JS.isEmpty (JS.trim (scriptContent Scenario.form))) with false.
  cbv iota. change (length (selectedPlatforms Scenario.form) =? 0)%nat with false.
  cbv iota zeta. rewrite H. unfold handleResult.
  change (JS.isEmpty Scenario.reply) with false. cbv iota.
  unfold handleReplyText. rewrite scenario_parses. reflexivity.
Qed.

(** C3.  The full text of a document is its sections in key order with
    one blank line between two of them; a text section is its title, a
    newline and the body, a visual section its title, Shot Suggestions:
    with one dash-prefixed line per shot, a blank line, and B-Roll: with
    one dash-prefixed line per item.  The visual ideas of the scenario
    flatten to the text the specification gives, under the section title. *)
Theorem getFullScriptText_flattening :
  forall (up : string -> string) (forCopy : bool),
    (forall doc : Sections,
       getFullScriptText up (Some doc) forCopy
       = Spec.blankLineSeparated
           (map (fun e => Spec.sectionText (formatTitle up (fst e)) (snd e)) doc))
    /\ (forall (e1 e2 : string * GeneratedSectionValue) (d1 d2 : Sections),
          getFullScriptText up (Some ((e1 :: d1) ++ e2 :: d2)%list) forCopy
          = getFullScriptText up (Some (e1 :: d1)) forCopy
            ++ JS.LF ++ JS.LF
            ++ getFullScriptText up (Some (e2 :: d2)) forCopy)
    /\ renderEntry up ("visualIdeas", Visual Scenario.ideas)
       = "Visual Ideas" ++ JS.LF
         ++ "Shot Suggestions:" ++ JS.LF ++ "- wide shot" ++ JS.LF ++ JS.LF
         ++ "B-Roll:" ++ JS.LF ++ "- clouds"
    /\ document
         (fst (handleGenerate (fun _ => Resolves (Some Scenario.reply))
                 Scenario.form))
       = Some Scenario.sections
    /\ getFullScriptText up (Some Scenario.sections) forCopy
       = "Hook" ++ JS.LF ++ "Try this!" ++ JS.LF ++ JS.LF
         ++ "Introduction" ++ JS.LF ++ "..." ++ JS.LF ++ JS.LF
         ++ "Main Content" ++ JS.LF ++ "..." ++ JS.LF ++ JS.LF
         ++ "Call To Action" ++ JS.LF ++ "..." ++ JS.LF ++ JS.LF
         ++ "Visual Ideas" ++ JS.LF
         ++ "Shot Suggestions:" ++ JS.LF ++ "- wide shot" ++ JS.LF ++ JS.LF
         ++ "B-Roll:" ++ JS.LF ++ "- clouds" ++ JS.LF ++ JS.LF
         ++ "Hashtags" ++ JS.LF ++ "#coffee".
Proof.
  intros up forCopy. split; [|split; [|split; [|split]]].
  - intros doc. unfold getFullScriptText. rewrite join_blankLineSeparated.
    f_equal. apply map_ext. intros [k v]. apply renderEntry_sectionText.
  - intros e1 e2 d1 d2. unfold getFullScriptText.
    rewrite map_app. simpl map. rewrite join_app by discriminate.
    reflexivity.
  - reflexivity.
  - now apply scenario_document.
  - reflexivity.
Qed.

(** ** Copying one section *)

Lemma length_prefixedLines_le (pre : string) (items : list string) :
  (String.length (Spec.prefixedLines EmptyString items)
   <= String.length (Spec.prefixedLines pre items))%nat.
Proof.
  induction items as [|x rest IH]; [apply le_n|].
  destruct rest as [|y rest].
  - simpl. rewrite length_append. lia.
  - change (Spec.prefixedLines EmptyString (x :: y :: rest))
      with (x ++ JS.LF ++ Spec.prefixedLines EmptyString (y :: rest)).
    change (Spec.prefixedLines pre (x :: y :: rest))
      with (pre ++ x ++ JS.LF ++ Spec.prefixedLines pre (y :: rest)).
    rewrite !length_append. lia.
Qed.

Lemma sectionCopyText_shorter (up : string -> string) (key : string)
  (value : GeneratedSectionValue) :
  (String.length (sectionCopyText value)
   < String.length (renderEntry up (key, value)))%nat.
Proof.
  destruct value as [body|v].
  - simpl. rewrite !length_append. simpl. lia.
  - unfold renderEntry, sectionCopyText.
    rewrite !dashed_prefixedLines, !join_prefixedLines, !length_append.
    pose proof (length_prefixedLines_le "- " (shotSuggestions v)).
    pose proof (length_prefixedLines_le "- " (bRoll v)).
    simpl. lia.
Qed.

(** C10.  The copy button of a section card puts on the clipboard, for a
    text section, the body alone and, for a visual section, Shot
    Suggestions: with the shots one per line, a blank line and B-Roll:
    with the items one per line, no dash and no title; this is never the
    text the whole-document flattening gives for that section. *)
Theorem sectionCopyText_untitled :
  forall (up : string -> string) (key : string) (value : GeneratedSectionValue)
         (st : App),
    snd (copySection key value st) = sectionCopyText value
    /\ sectionCopyText value
       = match value with
         | Text body => body
         | Visual v =>
             "Shot Suggestions:" ++ JS.LF
             ++ Spec.prefixedLines EmptyString (shotSuggestions v)
             ++ JS.LF ++ JS.LF
             ++ "B-Roll:" ++ JS.LF
             ++ Spec.prefixedLines EmptyString (bRoll v)
         end
    /\ sectionCopyText value <> renderEntry up (key, value)
    /\ sectionCopyText (Visual Scenario.ideas)
       = "Shot Suggestions:" ++ JS.LF ++ "wide shot" ++ JS.LF ++ JS.LF
         ++ "B-Roll:" ++ JS.LF ++ "clouds".
Proof.
  intros up key value st. split; [reflexivity|]. split; [|split; [|reflexivity]].
  - destruct value as [body|v]; [reflexivity|].
    unfold sectionCopyText. now rewrite !join_prefixedLines.
  - intros E. pose proof (sectionCopyText_shorter up key value) as H.
    rewrite E in H. lia.
Qed.

(** ** White space and blank ideas *)

Ltac pick := first [left; reflexivity | right; pick].

Ltac bool_to_prop H :=
  unfold JS.isWs1, JS.isWs2, JS.isWs3, JS.inRange in H;
  repeat first [ rewrite orb_true_iff in H | rewrite andb_true_iff in H
               | rewrite N.leb_le in H | rewrite N.eqb_eq in H ].

Lemma code_eq (c : ascii) (n : N) : JS.code c = n -> c = JS.chr n.
Proof. intros <-. symmetry. apply ascii_N_embedding. Qed.

Lemma isWs1_token (c : ascii) :
  JS.isWs1 c = true -> In (String c EmptyString) Spec.whiteSpace.
Proof.
  intros H. bool_to_prop H.
  assert (Hc : JS.code c = 9 \/ JS.code c = 10 \/ JS.code c = 11
               \/ JS.code c = 12 \/ JS.code c = 13 \/ JS.code c = 32) by lia.
  repeat destruct Hc as [Hc|Hc]; apply code_eq in Hc; subst c; pick.
Qed.

Lemma isWs2_token (c1 c2 : ascii) :
  JS.isWs2 c1 c2 = true ->
  In (String c1 (String c2 EmptyString)) Spec.whiteSpace.
Proof.
  intros H. bool_to_prop H. destruct H as [H1 H2].
  apply code_eq in H1, H2. subst. pick.
Qed.

Lemma isWs3_token (c1 c2 c3 : ascii) :
  JS.isWs3 c1 c2 c3 = true ->
  In (String c1 (String c2 (String c3 EmptyString))) Spec.whiteSpace.
Proof.
  intros H. bool_to_prop H.
  destruct H as [[[[H|H]|H]|H]|H].
  - destruct H as [[H1 H2] H3]. apply code_eq in H1, H2, H3. subst. pick.
  - destruct H as [[H1 H2] H3]. apply code_eq in H1, H2. subst c1 c2.
    assert (Hc : JS.code c3 = 128 \/ JS.code c3 = 129 \/ JS.code c3 = 130
                 \/ JS.code c3 = 131 \/ JS.code c3 = 132 \/ JS.code c3 = 133
                 \/ JS.code c3 = 134 \/ JS.code c3 = 135 \/ JS.code c3 = 136
                 \/ JS.code c3 = 137 \/ JS.code c3 = 138 \/ JS.code c3 = 168
                 \/ JS.code c3 = 169 \/ JS.code c3 = 175) by lia.
    repeat destruct Hc as [Hc|Hc]; apply code_eq in Hc; subst c3; pick.
  - destruct H as [[H1 H2] H3]. apply code_eq in H1, H2, H3. subst. pick.
  - destruct H as [[H1 H2] H3]. apply code_eq in H1, H2, H3. subst. pick.
  - destruct H as [[H1 H2] H3]. apply code_eq in H1, H2, H3. subst. pick.
Qed.

Lemma Blank_token (w : string) : In w Spec.whiteSpace -> Spec.Blank w.
Proof.
  intros H. rewrite <- (append_nil_r w).
  apply Spec.blank_more; [exact H | constructor].
Qed.

Lemma Blank_app (a b : string) :
  Spec.Blank a -> Spec.Blank b -> Spec.Blank (a ++ b).
Proof.
  intros Ha Hb. induction Ha as [|w rest Hw _ IH]; [exact Hb|].
  rewrite append_assoc. now apply Spec.blank_more.
Qed.

Lemma trimStart_token (w rest : string) :
  In w Spec.whiteSpace -> JS.trimStart (w ++ rest) = JS.trimStart rest.
Proof.
  intros H. unfold Spec.whiteSpace in H. simpl in H.
  repeat (destruct H as [H|H]; [subst w; reflexivity|]). contradiction.
Qed.

Lemma trimStart_Blank (s : string) : Spec.Blank s -> JS.trimStart s = EmptyString.
Proof.
  intros H. induction H as [|w rest Hw _ IH]; [reflexivity|].
  now rewrite trimStart_token.
Qed.

(** The stripped prefix is blank. *)
Lemma trimStart_split (n : nat) :
  forall s, (String.length s <= n)%nat ->
    exists w, Spec.Blank w /\ s = w ++ JS.trimStart s.
Proof.
  induction n as [|n IH]; intros s Hlen.
  - destruct s; [|simpl in Hlen; lia]. exists EmptyString. split; [constructor|reflexivity].
  - destruct s as [|c1 r1]; [exists EmptyString; split; [constructor|reflexivity]|].
    simpl in Hlen. cbn [JS.trimStart].
    destruct (JS.isWs1 c1) eqn:E1.
    { destruct (IH r1) as (w & Hw & Heq); [lia|].
      exists (String c1 w). split.
      - apply (Spec.blank_more (String c1 EmptyString) w); [now apply isWs1_token|exact Hw].
      - simpl. now rewrite <- Heq. }
    destruct r1 as [|c2 r2]; [exists EmptyString; split; [constructor|reflexivity]|].
    simpl in Hlen.
    destruct (JS.isWs2 c1 c2) eqn:E2.
    { destruct (IH r2) as (w & Hw & Heq); [lia|].
      exists (String c1 (String c2 w)). split.
      - apply (Spec.blank_more (String c1 (String c2 EmptyString)) w);
          [now apply isWs2_token|exact Hw].
      - simpl. now rewrite <- Heq. }
    destruct r2 as [|c3 r3]; [exists EmptyString; split; [constructor|reflexivity]|].
    simpl in Hlen.
    destruct (JS.isWs3 c1 c2 c3) eqn:E3.
    { destruct (IH r3) as (w & Hw & Heq); [lia|].
      exists (String c1 (String c2 (String c3 w))). split.
      - apply (Spec.blank_more (String c1 (String c2 (String c3 EmptyString))) w);
          [now apply isWs3_token|exact Hw].
      - simpl. now rewrite <- Heq. }
    exists EmptyString. split; [constructor|reflexivity].
Qed.

Lemma rev_append (a b : string) : JS.rev (a ++ b) = JS.rev b ++ JS.rev a.
Proof.
  induction a as [|c a IH]; simpl.
  - now rewrite append_nil_r.
  - now rewrite IH, append_assoc.
Qed.

Lemma rev_involutive (s : string) : JS.rev (JS.rev s) = s.
Proof.
  induction s as [|c s IH]; [reflexivity|].
  simpl. rewrite rev_append, IH. reflexivity.
Qed.

Lemma rev_empty (s : string) : JS.rev s = EmptyString -> s = EmptyString.
Proof.
  intros H. rewrite <- (rev_involutive s), H. reflexivity.
Qed.

(** What the backward walk strips entirely is blank. *)
Lemma trimStartRev_empty (n : nat) :
  forall r, (String.length r <= n)%nat ->
    JS.trimStartRev r = EmptyString -> Spec.Blank (JS.rev r).
Proof.
  induction n as [|n IH]; intros r Hlen H.
  - destruct r; [constructor|simpl in Hlen; lia].
  - destruct r as [|c1 r1]; [constructor|].
    simpl in Hlen. cbn [JS.trimStartRev] in H.
    destruct (JS.isWs1 c1) eqn:E1.
    { simpl. apply Blank_app; [apply IH; [lia|exact H]|].
      apply Blank_token. now apply isWs1_token. }
    destruct r1 as [|c2 r2]; [discriminate|]. simpl in Hlen.
    destruct (JS.isWs2 c2 c1) eqn:E2.
    { simpl. rewrite append_assoc. apply Blank_app; [apply IH; [lia|exact H]|].
      apply Blank_token. now apply isWs2_token. }
    destruct r2 as [|c3 r3]; [discriminate|]. simpl in Hlen.
    destruct (JS.isWs3 c3 c2 c1) eqn:E3; [|discriminate].
    simpl. rewrite !append_assoc. apply Blank_app; [apply IH; [lia|exact H]|].
    apply Blank_token. now apply isWs3_token.
Qed.

(** [!scriptContent.trim()] holds exactly of the blank ideas. *)
Lemma trim_empty_iff_Blank (s : string) :
  JS.isEmpty (JS.trim s) = true <-> Spec.Blank s.
Proof.
  split.
  - intros H. assert (Ht : JS.trim s = EmptyString) by (destruct (JS.trim s); [reflexivity|discriminate]).
    unfold JS.trim, JS.trimEnd in Ht. apply rev_empty in Ht.
    apply (trimStartRev_empty _ _ (le_n _)) in Ht. rewrite rev_involutive in Ht.
    destruct (trimStart_split _ s (le_n _)) as (w & Hw & Heq).
    rewrite Heq. now apply Blank_app.
  - intros H. unfold JS.trim. now rewrite trimStart_Blank.
Qed.

(** ** Input validation *)

(** C8.  When the idea is blank or no platform is selected,
    [handleGenerate] only sets one of its two input messages: no request
    is built and the provider is not called. *)
Theorem handleGenerate_input_validation :
  forall (provider : Request -> ProviderResult) (st : App),
    Spec.Blank (scriptContent st) \/ selectedPlatforms st = [] ->
    snd (handleGenerate provider st) = []
    /\ (fst (handleGenerate provider st) = setError (Some msgNoIdea) st
        \/ fst (handleGenerate provider st) = setError (Some msgNoPlatform) st).
Proof.
  intros provider st H. unfold handleGenerate.
  destruct (JS.isEmpty (JS.trim (scriptContent st))) eqn:E; [split; [reflexivity|now left]|].
  destruct H as [H|H].
  - apply trim_empty_iff_Blank in H. congruence.
  - rewrite H. split; [reflexivity|now right].
Qed.

Lemma handleGenerate_input_validation_witness :
  snd (handleGenerate (fun _ => Resolves (Some Scenario.reply))
         (setError None initialApp)) = []
  /\ error (fst (handleGenerate (fun _ => Resolves (Some Scenario.reply))
                   (setError None initialApp))) = Some msgNoIdea.
Proof.
  destruct (handleGenerate_input_validation
              (fun _ => Resolves (Some Scenario.reply)) (setError None initialApp))
    as [H1 H2].
  - left. constructor.
  - split; [exact H1|]. destruct H2 as [H2|H2]; rewrite H2; [reflexivity|].
    exfalso. vm_compute in H2. discriminate H2.
Defined.

(** With a non-blank idea and a platform selected the request goes out. *)
Lemma handleGenerate_sends (provider : Request -> ProviderResult) (st : App) :
  ~ Spec.Blank (scriptContent st) -> selectedPlatforms st <> [] ->
  snd (handleGenerate provider st) = [buildRequest st].
Proof.
  intros Hb Hp. unfold handleGenerate.
  destruct (JS.isEmpty (JS.trim (scriptContent st))) eqn:E.
  - apply trim_empty_iff_Blank in E. contradiction.
  - destruct (selectedPlatforms st); [congruence|reflexivity].
Qed.

(** ** The prompt *)

Lemma contains_refl (s : string) : Spec.contains s s.
Proof. exists EmptyString, EmptyString. simpl. now rewrite append_nil_r. Qed.

Lemma contains_app_l (t u s : string) :
  Spec.contains t s -> Spec.contains (t ++ u) s.
Proof.
  intros (b & a & ->). exists b, (a ++ u). now rewrite !append_assoc.
Qed.

Lemma contains_app_r (t u s : string) :
  Spec.contains u s -> Spec.contains (t ++ u) s.
Proof.
  intros (b & a & ->). exists (t ++ b), a. now rewrite !append_assoc.
Qed.

(** *** What [parseInt] takes for a positive integer *)

Lemma trimStart_Blank_app (space s : string) :
  Spec.Blank space -> JS.trimStart (space ++ s) = JS.trimStart s.
Proof.
  intros H. induction H as [|w rest Hw _ IH]; [reflexivity|].
  now rewrite append_assoc, trimStart_token.
Qed.

Lemma trimStart_keeps (c : ascii) (r : string) :
  JS.isWs1 c = false -> JS.code c < 128 ->
  JS.trimStart (String c r) = String c r.
Proof.
  intros H1 Hc. cbn [JS.trimStart]. rewrite H1.
  assert (E2 : forall c2, JS.isWs2 c c2 = false).
  { intros c2. unfold JS.isWs2. replace (JS.code c =? 194) with false; [reflexivity|].
    symmetry. apply N.eqb_neq. lia. }
  assert (E3 : forall c2 c3, JS.isWs3 c c2 c3 = false).
  { intros c2 c3. unfold JS.isWs3.
    replace (JS.code c =? 225) with false by (symmetry; apply N.eqb_neq; lia).
    replace (JS.code c =? 226) with false by (symmetry; apply N.eqb_neq; lia).
    replace (JS.code c =? 227) with false by (symmetry; apply N.eqb_neq; lia).
    replace (JS.code c =? 239) with false by (symmetry; apply N.eqb_neq; lia).
    reflexivity. }
  destruct r as [|c2 [|c3 r3]]; [reflexivity| |].
  - now rewrite E2.
  - now rewrite E2, E3.
Qed.

(** The part of [parseInt] behind the sign. *)
Lemma parseInt_unfold (input : string) :
  JS.parseInt input
  = match JS.digitsFrom (fst (JS.stripHexPrefix (snd (JS.stripSign (JS.trimStart input)))))
            None (snd (JS.stripHexPrefix (snd (JS.stripSign (JS.trimStart input))))) with
    | Some n =>
        Some (if fst (JS.stripSign (JS.trimStart input))
              then (- Z.of_N n)%Z else Z.of_N n)
    | None => None
    end.
Proof.
  unfold JS.parseInt. destruct (JS.stripSign (JS.trimStart input)) as [neg s1].
  cbn [fst snd]. destruct (JS.stripHexPrefix s1) as [radix s2]. reflexivity.
Qed.

Lemma digitValue_zero (radix : N) (c : ascii) :
  JS.digitValue radix c = Some 0 -> c = "0"%char.
Proof.
  unfold JS.digitValue, JS.inRange. intros H.
  destruct ((48 <=? JS.code c) && (JS.code c <=? 57)) eqn:E1.
  - apply andb_true_iff in E1. destruct E1 as [L U]. apply N.leb_le in L, U.
    destruct (JS.code c - 48 <? radix); [|discriminate]. injection H as H.
    apply (code_eq c 48). lia.
  - destruct ((97 <=? JS.code c) && (JS.code c <=? 122)) eqn:E2.
    + apply andb_true_iff in E2. destruct E2 as [L U]. apply N.leb_le in L, U.
      destruct (JS.code c - 87 <? radix); [|discriminate]. injection H as H. lia.
    + destruct ((65 <=? JS.code c) && (JS.code c <=? 90)) eqn:E3; [|discriminate].
      apply andb_true_iff in E3. destruct E3 as [L U]. apply N.leb_le in L, U.
      destruct (JS.code c - 55 <? radix); [|discriminate]. injection H as H. lia.
Qed.

Lemma digitValue_decimal (c : ascii) (v : N) :
  JS.digitValue 10 c = Some v -> 0 < v -> In c Spec.nonZeroDecimal.
Proof.
  unfold JS.digitValue, JS.inRange. intros H Hv.
  destruct ((48 <=? JS.code c) && (JS.code c <=? 57)) eqn:E1.
  - apply andb_true_iff in E1. destruct E1 as [L U]. apply N.leb_le in L, U.
    destruct (JS.code c - 48 <? 10); [|discriminate]. injection H as H.
    assert (Hc : JS.code c = 49 \/ JS.code c = 50 \/ JS.code c = 51
                 \/ JS.code c = 52 \/ JS.code c = 53 \/ JS.code c = 54
                 \/ JS.code c = 55 \/ JS.code c = 56 \/ JS.code c = 57) by lia.
    repeat destruct Hc as [Hc|Hc]; apply code_eq in Hc; subst c; pick.
  - destruct ((97 <=? JS.code c) && (JS.code c <=? 122)) eqn:E2.
    + apply andb_true_iff in E2. destruct E2 as [L U]. apply N.leb_le in L, U.
      destruct (JS.code c - 87 <? 10) eqn:E; [|discriminate].
      apply N.ltb_lt in E. lia.
    + destruct ((65 <=? JS.code c) && (JS.code c <=? 90)) eqn:E3; [|discriminate].
      apply andb_true_iff in E3. destruct E3 as [L U]. apply N.leb_le in L, U.
      destruct (JS.code c - 55 <? 10) eqn:E; [|discriminate].
      apply N.ltb_lt in E. lia.
Qed.

Lemma digitValue_hexadecimal (c : ascii) (v : N) :
  JS.digitValue 16 c = Some v -> 0 < v -> In c Spec.nonZeroHexadecimal.
Proof.
  unfold JS.digitValue, JS.inRange. intros H Hv.
  destruct ((48 <=? JS.code c) && (JS.code c <=? 57)) eqn:E1.
  - apply andb_true_iff in E1. destruct E1 as [L U]. apply N.leb_le in L, U.
    destruct (JS.code c - 48 <? 16); [|discriminate]. injection H as H.
    assert (Hc : JS.code c = 49 \/ JS.code c = 50 \/ JS.code c = 51
                 \/ JS.code c = 52 \/ JS.code c = 53 \/ JS.code c = 54
                 \/ JS.code c = 55 \/ JS.code c = 56 \/ JS.code c = 57) by lia.
    repeat destruct Hc as [Hc|Hc]; apply code_eq in Hc; subst c; pick.
  - destruct ((97 <=? JS.code c) && (JS.code c <=? 122)) eqn:E2.
    + apply andb_true_iff in E2. destruct E2 as [L U]. apply N.leb_le in L, U.
      destruct (JS.code c - 87 <? 16) eqn:E; [|discriminate].
      apply N.ltb_lt in E.
      assert (Hc : JS.code c = 97 \/ JS.code c = 98 \/ JS.code c = 99
                   \/ JS.code c = 100 \/ JS.code c = 101 \/ JS.code c = 102) by lia.
      repeat destruct Hc as [Hc|Hc]; apply code_eq in Hc; subst c; pick.
    + destruct ((65 <=? JS.code c) && (JS.code c <=? 90)) eqn:E3; [|discriminate].
      apply andb_true_iff in E3. destruct E3 as [L U]. apply N.leb_le in L, U.
      destruct (JS.code c - 55 <? 16) eqn:E; [|discriminate].
      apply N.ltb_lt in E.
      assert (Hc : JS.code c = 65 \/ JS.code c = 66 \/ JS.code c = 67
                   \/ JS.code c = 68 \/ JS.code c = 69 \/ JS.code c = 70) by lia.
      repeat destruct Hc as [Hc|Hc]; apply code_eq in Hc; subst c; pick.
Qed.

(** A positive value comes from a positive start or from a digit other
    than zero behind zeros only. *)
Lemma digitsFrom_positive (radix : N) (s : string) :
  forall acc n,
    JS.digitsFrom radix acc s = Some n -> 0 < n ->
    (exists a, acc = Some a /\ 0 < a)
    \/ (exists zeros digit rest v,
          s = zeros ++ String digit rest /\ Spec.Zeros zeros
          /\ JS.digitValue radix digit = Some v /\ 0 < v).
Proof.
  induction s as [|c r IH]; intros acc n H Hn.
  - simpl in H. left. now exists n.
  - cbn [JS.digitsFrom] in H.
    destruct (JS.digitValue radix c) as [v|] eqn:Ev; [|left; now exists n].
    destruct (N.eq_dec v 0) as [Hz|Hz].
    + subst v. pose proof (digitValue_zero _ _ Ev) as ->.
      destruct (IH _ _ H Hn) as [(a & Ha & Hpos)|(zeros & d & rest & w & -> & Hzs & Hd & Hw)].
      * injection Ha as Ha. destruct acc as [a0|]; [|lia].
        left. exists a0. split; [reflexivity|]. nia.
      * right. exists (String "0" zeros), d, rest, w.
        split; [reflexivity|]. split; [now constructor|]. now split.
    + right. exists EmptyString, c, r, v. split; [reflexivity|].
      split; [constructor|]. split; [exact Ev|lia].
Qed.

Lemma digitsFrom_from_positive (radix : N) (s : string) :
  0 < radix ->
  forall a, 0 < a -> exists n, JS.digitsFrom radix (Some a) s = Some n /\ 0 < n.
Proof.
  intros Hr. induction s as [|c r IH]; intros a Ha; [now exists a|].
  cbn [JS.digitsFrom]. destruct (JS.digitValue radix c) as [v|]; [|now exists a].
  apply IH. nia.
Qed.

Lemma digitsFrom_zeros (radix : N) (zeros : string) :
  1 < radix -> Spec.Zeros zeros ->
  forall acc s,
    (acc = None \/ acc = Some 0) ->
    exists acc',
      JS.digitsFrom radix acc (zeros ++ s) = JS.digitsFrom radix acc' s
      /\ (acc' = None \/ acc' = Some 0).
Proof.
  intros Hr Hz. induction Hz as [|rest _ IH]; intros acc s Hacc.
  - now exists acc.
  - cbn [append JS.digitsFrom].
    assert (Ev : JS.digitValue radix "0" = Some 0).
    { unfold JS.digitValue. cbn. replace (0 <? radix) with true; [reflexivity|].
      symmetry. apply N.ltb_lt. lia. }
    rewrite Ev. apply IH. right. destruct Hacc as [-> | ->]; reflexivity.
Qed.

Lemma digitsFrom_numeral (radix : N) (zeros : string) (digit : ascii)
  (rest : string) (v : N) :
  1 < radix -> Spec.Zeros zeros ->
  JS.digitValue radix digit = Some v -> 0 < v ->
  exists n, JS.digitsFrom radix None (zeros ++ String digit rest) = Some n /\ 0 < n.
Proof.
  intros Hr Hz Hd Hv.
  destruct (digitsFrom_zeros radix zeros Hr Hz None (String digit rest))
    as (acc' & E & Hacc); [now left|].
  rewrite E. cbn [JS.digitsFrom]. rewrite Hd.
  apply digitsFrom_from_positive; [lia|].
  destruct Hacc as [-> | ->]; lia.
Qed.

Lemma nonZeroDecimal_value (digit : ascii) :
  In digit Spec.nonZeroDecimal ->
  exists v, JS.digitValue 10 digit = Some v /\ 0 < v /\ JS.isWs1 digit = false
            /\ JS.code digit < 128 /\ digit <> "0"%char /\ digit <> "+"%char
            /\ digit <> "-"%char.
Proof.
  intros H. unfold Spec.nonZeroDecimal in H. simpl in H.
  repeat (destruct H as [<-|H];
          [eexists; repeat split; try reflexivity; try discriminate; cbn; lia|]).
  contradiction.
Qed.

Lemma nonZeroHexadecimal_value (digit : ascii) :
  In digit Spec.nonZeroHexadecimal ->
  exists v, JS.digitValue 16 digit = Some v /\ 0 < v.
Proof.
  intros H. unfold Spec.nonZeroHexadecimal, Spec.nonZeroDecimal in H. simpl in H.
  repeat (destruct H as [<-|H]; [eexists; split; [reflexivity|cbn; lia]|]).
  contradiction.
Qed.

(** A numeral starts with a digit: white space stops before it and it
    carries no sign. *)
Lemma positiveNumeral_head (body : string) :
  Spec.positiveNumeral body ->
  exists c r, body = String c r /\ JS.isWs1 c = false /\ JS.code c < 128
              /\ c <> "+"%char /\ c <> "-"%char.
Proof.
  intros (zeros & d & rest & Hz & [[Hd ->]|[Hd [-> | ->]]]).
  - destruct Hz as [|zs Hz].
    + destruct (nonZeroDecimal_value d Hd) as (v & _ & _ & W & C & _ & P & M).
      exists d, rest. repeat split; assumption.
    + exists "0"%char, (zs ++ String d rest). repeat split; try discriminate; try (cbn; lia).
  - exists "0"%char, ("x" ++ zeros ++ String d rest). repeat split; try discriminate; try (cbn; lia).
  - exists "0"%char, ("X" ++ zeros ++ String d rest). repeat split; try discriminate; try (cbn; lia).
Qed.

Lemma stripSign_unsigned (c : ascii) (r : string) :
  c <> "+"%char -> c <> "-"%char ->
  JS.stripSign (String c r) = (false, String c r).
Proof.
  intros P M. unfold JS.stripSign.
  destruct (JS.code c =? 45) eqn:E1.
  - apply N.eqb_eq, code_eq in E1. contradiction.
  - destruct (JS.code c =? 43) eqn:E2; [|reflexivity].
    apply N.eqb_eq, code_eq in E2. contradiction.
Qed.

Lemma positiveNumeral_digits (body : string) :
  Spec.positiveNumeral body ->
  exists n,
    JS.digitsFrom (fst (JS.stripHexPrefix body)) None (snd (JS.stripHexPrefix body))
    = Some n /\ 0 < n.
Proof.
  intros (zeros & d & rest & Hz & [[Hd ->]|[Hd [-> | ->]]]).
  - destruct (nonZeroDecimal_value d Hd) as (v & Hv & Hpos & _ & _ & Hn0 & _).
    assert (E : JS.stripHexPrefix (zeros ++ String d rest)
                = (10, zeros ++ String d rest)).
    { destruct Hz as [|zs Hz].
      - cbn [append]. unfold JS.stripHexPrefix. destruct rest as [|c2 r2]; [reflexivity|].
        replace (JS.code d =? 48) with false; [reflexivity|].
        symmetry. apply N.eqb_neq. intros E. apply code_eq in E. contradiction.
      - cbn [append]. destruct Hz as [|zs' Hz]; cbn [append].
        + unfold JS.stripHexPrefix.
          replace ((JS.code d =? 120) || (JS.code d =? 88)) with false;
            [reflexivity|].
          symmetry. apply orb_false_iff.
          unfold Spec.nonZeroDecimal in Hd. simpl in Hd.
          repeat (destruct Hd as [<-|Hd]; [split; reflexivity|]). contradiction.
        + reflexivity. }
    rewrite E. cbn [fst snd]. now apply (digitsFrom_numeral 10 zeros d rest v).
  - destruct (nonZeroHexadecimal_value d Hd) as (v & Hv & Hpos).
    change (JS.stripHexPrefix ("0x" ++ zeros ++ String d rest))
      with (16, zeros ++ String d rest).
    cbn [fst snd]. now apply (digitsFrom_numeral 16 zeros d rest v).
  - destruct (nonZeroHexadecimal_value d Hd) as (v & Hv & Hpos).
    change (JS.stripHexPrefix ("0X" ++ zeros ++ String d rest))
      with (16, zeros ++ String d rest).
    cbn [fst snd]. now apply (digitsFrom_numeral 16 zeros d rest v).
Qed.

Lemma digits_positiveNumeral (body : string) (n : N) :
  JS.digitsFrom (fst (JS.stripHexPrefix body)) None (snd (JS.stripHexPrefix body))
  = Some n -> 0 < n -> Spec.positiveNumeral body.
Proof.
  intros H Hn. unfold JS.stripHexPrefix in H.
  destruct body as [|c1 [|c2 r]].
  - discriminate.
  - cbn [fst snd] in H.
    destruct (digitsFrom_positive _ _ _ _ H Hn)
      as [(a & Ha & _)|(zeros & d & rest & v & E & Hz & Hd & Hv)]; [discriminate|].
    exists zeros, d, rest. split; [exact Hz|]. left.
    split; [now apply (digitValue_decimal d v)|exact E].
  - destruct ((JS.code c1 =? 48) && ((JS.code c2 =? 120) || (JS.code c2 =? 88))) eqn:Ex;
      cbn [fst snd] in H.
    + apply andb_true_iff in Ex. destruct Ex as [E1 E2].
      apply N.eqb_eq, code_eq in E1. subst c1.
      destruct (digitsFrom_positive _ _ _ _ H Hn)
        as [(a & Ha & _)|(zeros & d & rest & v & E & Hz & Hd & Hv)]; [discriminate|].
      exists zeros, d, rest. split; [exact Hz|]. right.
      split; [now apply (digitValue_hexadecimal d v)|].
      apply orb_true_iff in E2. destruct E2 as [E2|E2];
        apply N.eqb_eq, code_eq in E2; subst c2 r; [now left|now right].
    + destruct (digitsFrom_positive _ _ _ _ H Hn)
        as [(a & Ha & _)|(zeros & d & rest & v & E & Hz & Hd & Hv)]; [discriminate|].
      exists zeros, d, rest. split; [exact Hz|]. left.
      split; [now apply (digitValue_decimal d v)|exact E].
Qed.

(** [parseInt] gives a positive integer exactly on the strings that start,
    behind white space and an optional plus sign, with a positive
    numeral. *)
Lemma parseInt_positive_iff (wc : string) :
  (exists n, JS.parseInt wc = Some n /\ (0 < n)%Z) <-> Spec.positiveInteger wc.
Proof.
  split.
  - intros (n & H & Hn). rewrite parseInt_unfold in H.
    destruct (trimStart_split _ wc (le_n _)) as (space & Hspace & Hwc).
    destruct (JS.trimStart wc) as [|c r] eqn:Et.
    { discriminate H. }
    unfold JS.stripSign in H.
    destruct (JS.code c =? 45) eqn:Em; cbn [fst snd] in H.
    + destruct (JS.digitsFrom _ None _) as [m|]; [|discriminate].
      injection H as H. lia.
    + destruct (JS.code c =? 43) eqn:Ep; cbn [fst snd] in H.
      * apply N.eqb_eq, code_eq in Ep. subst c.
        destruct (JS.digitsFrom _ None _) as [m|] eqn:Ed; [|discriminate].
        injection H as H.
        exists space, "+", r. split; [exact Hwc|]. split; [exact Hspace|].
        split; [now right|]. apply (digits_positiveNumeral r m Ed). lia.
      * destruct (JS.digitsFrom _ None _) as [m|] eqn:Ed; [|discriminate].
        injection H as H.
        exists space, EmptyString, (String c r). split; [exact Hwc|].
        split; [exact Hspace|]. split; [now left|].
        apply (digits_positiveNumeral (String c r) m Ed). lia.
  - intros (space & sign & body & -> & Hspace & Hsign & Hbody).
    destruct (positiveNumeral_digits body Hbody) as (m & Hm & Hpos).
    destruct (positiveNumeral_head body Hbody) as (c & r & -> & W & C & P & M).
    exists (Z.of_N m). split; [|lia].
    rewrite parseInt_unfold, trimStart_Blank_app by exact Hspace.
    destruct Hsign as [-> | ->].
    + cbn [append]. rewrite trimStart_keeps by assumption.
      rewrite stripSign_unsigned by assumption. cbn [fst snd]. now rewrite Hm.
    + change ("+" ++ String c r) with (String "+" (String c r)).
      rewrite trimStart_keeps by (reflexivity || (cbn; lia)).
      cbn [JS.stripSign]. change (JS.code "+" =? 45) with false.
      change (JS.code "+" =? 43) with true. cbn [fst snd]. now rewrite Hm.
Qed.

Lemma wordCountGiven_iff (wc : string) :
  wordCountGiven wc = true <-> Spec.positiveInteger wc.
Proof.
  rewrite <- parseInt_positive_iff. unfold wordCountGiven. split.
  - intros H. apply andb_true_iff in H. destruct H as [_ H].
    destruct (JS.parseInt wc) as [n|]; [|discriminate].
    exists n. split; [reflexivity|]. now apply Z.ltb_lt.
  - intros (n & Hn & Hpos). rewrite Hn. apply andb_true_iff. split.
    + destruct wc; [discriminate Hn|reflexivity].
    + now apply Z.ltb_lt.
Qed.

(** The predicate at work, also where the field does not hold a plain
    number. *)
Example wordCountGiven_cases :
  wordCountGiven "50" = true /\ wordCountGiven "007" = true
  /\ wordCountGiven " +12px" = true /\ wordCountGiven "1.5" = true
  /\ wordCountGiven "0x1F" = true
  /\ wordCountGiven EmptyString = false /\ wordCountGiven "0" = false
  /\ wordCountGiven "-20" = false /\ wordCountGiven "abc" = false
  /\ wordCountGiven "0.5" = false /\ wordCountGiven "+ 5" = false
  /\ wordCountGiven "0x" = false /\ wordCountGiven "00x5" = false.
Proof. repeat split. Qed.

Example positiveInteger_cases :
  Spec.positiveInteger "50" /\ Spec.positiveInteger " +12px"
  /\ ~ Spec.positiveInteger "abc" /\ ~ Spec.positiveInteger "0"
  /\ ~ Spec.positiveInteger "-20" /\ ~ Spec.positiveInteger EmptyString.
Proof.
  split; [|split].
  - exists EmptyString, EmptyString, "50". split; [reflexivity|].
    split; [constructor|]. split; [now left|].
    exists EmptyString, "5"%char, "0". split; [constructor|]. left.
    split; [simpl; pick|reflexivity].
  - exists " ", "+", "12px". split; [reflexivity|].
    split; [apply trim_empty_iff_Blank; reflexivity|]. split; [now right|].
    exists EmptyString, "1"%char, "2px". split; [constructor|]. left.
    split; [simpl; pick|reflexivity].
  - repeat split; intros H; apply wordCountGiven_iff in H; discriminate H.
Qed.

Lemma buildPrompt_parts (st : App) :
  buildPrompt st
  = promptBase (selectedPlatforms st) (scriptContent st)
    ++ (if wordCountGiven (wordCount st)
        then wordCountDirective (wordCount st) else EmptyString)
    ++ Spec.styleDirective st.
Proof.
  unfold buildPrompt, Spec.styleDirective.
  destruct (wordCountGiven (wordCount st));
    destruct (JS.isEmpty (JS.trim (advancedInstructions st)));
    cbn [negb]; rewrite ?append_nil_r, ?append_assoc; reflexivity.
Qed.

(** C7.  The prompt embeds the idea and the comma-separated platform
    list; the word-count directive is appended exactly when [parseInt] of
    the word-count field is a positive integer, and then the prompt
    contains it.  For the scenario's form the prompt contains
    approximately 50 words and Instagram. *)
Theorem buildPrompt_word_count :
  forall st : App,
    Spec.contains (buildPrompt st) (scriptContent st)
    /\ Spec.contains (buildPrompt st) (JS.join ", " (selectedPlatforms st))
    /\ (Spec.positiveInteger (wordCount st) ->
          buildPrompt st
          = promptBase (selectedPlatforms st) (scriptContent st)
            ++ wordCountDirective (wordCount st) ++ Spec.styleDirective st
          /\ Spec.contains (buildPrompt st)
               ("approximately " ++ wordCount st ++ " words"))
    /\ (~ Spec.positiveInteger (wordCount st) ->
          buildPrompt st
          = promptBase (selectedPlatforms st) (scriptContent st)
            ++ Spec.styleDirective st)
    /\ Spec.contains (buildPrompt Scenario.form) "approximately 50 words"
    /\ Spec.contains (buildPrompt Scenario.form) "Instagram".
Proof.
  intros st. rewrite buildPrompt_parts. repeat split.
  - apply contains_app_l. unfold promptBase.
    do 7 apply contains_app_r. apply contains_app_l, contains_refl.
  - apply contains_app_l. unfold promptBase.
    apply contains_app_r, contains_app_l, contains_refl.
  - apply wordCountGiven_iff in H. now rewrite H.
  - apply wordCountGiven_iff in H. rewrite H.
    apply contains_app_r, contains_app_l. unfold wordCountDirective.
    do 2 apply contains_app_r.
    exists "The main content should be ", ".". rewrite !append_assoc. reflexivity.
  - intros H. destruct (wordCountGiven (wordCount st)) eqn:E; [|reflexivity].
    apply wordCountGiven_iff in E. contradiction.
  - exists ("Based on the following content idea, generate a script for a social media post tailored for the following platforms: Instagram. Include a hook, introduction, main content, a call to action, detailed visual ideas (with specific shot suggestions and B-roll ideas), and relevant hashtags."
            ++ JS.LF ++ JS.LF ++ "Idea: " ++ JS.DQ ++ "A 30 second video about coffee" ++ JS.DQ
            ++ JS.LF ++ JS.LF ++ "The main content should be "), ".".
    vm_compute. reflexivity.
  - exists "Based on the following content idea, generate a script for a social media post tailored for the following platforms: ".
    eexists. vm_compute. reflexivity.
Qed.

Lemma buildPrompt_word_count_witness :
  Spec.positiveInteger (wordCount Scenario.form)
  /\ Spec.contains (buildPrompt Scenario.form)
       ("approximately " ++ wordCount Scenario.form ++ " words")
  /\ ~ Spec.positiveInteger (wordCount initialApp)
  /\ buildPrompt initialApp
     = promptBase (selectedPlatforms initialApp) (scriptContent initialApp)
       ++ Spec.styleDirective initialApp.
Proof.
  assert (Hpos : Spec.positiveInteger (wordCount Scenario.form)).
  { exists EmptyString, EmptyString, "50". split; [reflexivity|].
    split; [constructor|]. split; [now left|].
    exists EmptyString, "5"%char, "0". split; [constructor|]. left.
    split; [simpl; pick|reflexivity]. }
  assert (Hneg : ~ Spec.positiveInteger (wordCount initialApp)).
  { intros (space & sign & body & E & _ & _ & Hbody).
    destruct (positiveNumeral_head body Hbody) as (c & r & -> & _).
    change (wordCount initialApp) with EmptyString in E.
    destruct space; [destruct sign|]; discriminate E. }
  destruct (buildPrompt_word_count Scenario.form) as (_ & _ & H & _).
  destruct (buildPrompt_word_count initialApp) as (_ & _ & _ & H' & _).
  split; [exact Hpos|]. split; [exact (proj2 (H Hpos))|].
  split; [exact Hneg | exact (H' Hneg)].
Defined.

(** ** Reply handling *)

Lemma handleGenerate_sent (provider : Request -> ProviderResult) (st : App) :
  snd (handleGenerate provider st) = [buildRequest st] ->
  fst (handleGenerate provider st)
  = setIsLoading false
      (handleResult (provider (buildRequest st))
         (setGeneratedSections None (setError None (setIsLoading true st)))).
Proof.
  unfold handleGenerate.
  destruct (JS.isEmpty (JS.trim (scriptContent st))); [discriminate|].
  destruct (length (selectedPlatforms st) =? 0)%nat; [discriminate|].
  reflexivity.
Qed.

Lemma parse_some_nonempty (text : string) (j : json) :
  Json.parse text = Some j -> JS.isEmpty text = false.
Proof. destruct text; [discriminate|reflexivity]. Qed.

Lemma handleResult_reply (text : string) (j : json) (st : App) :
  Json.parse text = Some j ->
  handleResult (Resolves (Some text)) st
  = match readHook j with
    | TypeError => setError (Some msgFormat) st
    | hook =>
        if isViolation hook
        then setGeneratedSections None (setError (Some msgPolicy) st)
        else setGeneratedSections (Some j) st
    end.
Proof.
  intros H. unfold handleResult, handleReplyText.
  now rewrite (parse_some_nonempty _ _ H), H.
Qed.

(** C2.  When the reply parses and its hook is the sentinel, the run ends
    with the policy message and without a document, whatever else the
    reply holds. *)
Theorem handleGenerate_policy_rejection :
  forall (provider : Request -> ProviderResult) (st : App) (text : string)
         (j : json),
    snd (handleGenerate provider st) = [buildRequest st] ->
    provider (buildRequest st) = Resolves (Some text) ->
    Json.parse text = Some j ->
    readHook j = Value (JString sentinel) ->
    generatedSections (fst (handleGenerate provider st)) = None
    /\ document (fst (handleGenerate provider st)) = None
    /\ error (fst (handleGenerate provider st)) = Some msgPolicy
    /\ isLoading (fst (handleGenerate provider st)) = false.
Proof.
  intros provider st text j Hsent Hreply Hparse Hhook.
  rewrite (handleGenerate_sent _ _ Hsent), Hreply,
    (handleResult_reply _ _ _ Hparse), Hhook.
  repeat split.
Qed.

Lemma handleGenerate_policy_rejection_witness :
  Json.parse Scenario.refusalReply
  = Some (JObject [("hook", JString sentinel); ("mainContent", JString "Some text")])
  /\ generatedSections
       (fst (handleGenerate (fun _ => Resolves (Some Scenario.refusalReply))
               Scenario.form)) = None
  /\ error
       (fst (handleGenerate (fun _ => Resolves (Some Scenario.refusalReply))
               Scenario.form)) = Some msgPolicy.
Proof.
  assert (Hp : Json.parse Scenario.refusalReply
    = Some (JObject [("hook", JString sentinel); ("mainContent", JString "Some text")]))
    by (vm_compute; reflexivity).
  destruct (handleGenerate_policy_rejection
              (fun _ => Resolves (Some Scenario.refusalReply)) Scenario.form
              Scenario.refusalReply _ eq_refl eq_refl Hp eq_refl)
    as (H1 & _ & H3 & _).
  split; [exact Hp|]. split; [exact H1 | exact H3].
Defined.

(** C1 (as stated) fails: a reply with a hook and nothing else parses,
    lacks five of the six keys, and is stored and rendered as the
    document, with no error. *)
Lemma missing_keys_exposed :
  Json.parse Scenario.hookOnlyReply
  = Some (JObject [("hook", JString "Try this!")])
  /\ hasAllKeys requiredKeys (JObject [("hook", JString "Try this!")]) = false
  /\ generatedSections
       (fst (handleGenerate (fun _ => Resolves (Some Scenario.hookOnlyReply))
               Scenario.form))
     = Some (JObject [("hook", JString "Try this!")])
  /\ error
       (fst (handleGenerate (fun _ => Resolves (Some Scenario.hookOnlyReply))
               Scenario.form)) = None
  /\ getFullScriptText (fun s => s)
       (document
          (fst (handleGenerate (fun _ => Resolves (Some Scenario.hookOnlyReply))
                  Scenario.form))) false
     = "Hook" ++ JS.LF ++ "Try this!".
Proof. vm_compute. repeat split. Qed.

(** C1 (as amended).  No key is checked: a reply that parses is stored as
    the document exactly when it is not null and its hook is not the
    sentinel, and then no error is set; the stored document is the parsed
    reply itself, with whatever keys it has. *)
Theorem handleGenerate_stores_reply :
  forall (provider : Request -> ProviderResult) (st : App) (text : string)
         (j : json),
    snd (handleGenerate provider st) = [buildRequest st] ->
    provider (buildRequest st) = Resolves (Some text) ->
    Json.parse text = Some j ->
    (generatedSections (fst (handleGenerate provider st)) = Some j
     <-> j <> JNull /\ isViolation (readHook j) = false)
    /\ (forall j', generatedSections (fst (handleGenerate provider st)) = Some j'
                   -> j' = j /\ error (fst (handleGenerate provider st)) = None).
Proof.
  intros provider st text j Hsent Hreply Hparse.
  rewrite (handleGenerate_sent _ _ Hsent), Hreply,
    (handleResult_reply _ _ _ Hparse).
  destruct j as [|b|n|s|items|props]; simpl readHook.
  - split; [split; [discriminate|intros [H _]; congruence]|discriminate].
  - split; [split; [split; [discriminate|reflexivity]|reflexivity]|].
    intros j' H. simpl in H. now inversion H.
  - split; [split; [split; [discriminate|reflexivity]|reflexivity]|].
    intros j' H. simpl in H. now inversion H.
  - split; [split; [split; [discriminate|reflexivity]|reflexivity]|].
    intros j' H. simpl in H. now inversion H.
  - split; [split; [split; [discriminate|reflexivity]|reflexivity]|].
    intros j' H. simpl in H. now inversion H.
  - destruct (Json.lookup "hook" props) as [v|].
    + destruct (isViolation (Value v)) eqn:E.
      * split; [split; [discriminate|intros [_ H]; discriminate]|discriminate].
      * split; [split; [split; [discriminate|reflexivity]|reflexivity]|].
        intros j' H. simpl in H. now inversion H.
    + split; [split; [split; [discriminate|reflexivity]|reflexivity]|].
      intros j' H. simpl in H. now inversion H.
Qed.

Lemma handleGenerate_stores_reply_witness :
  generatedSections
    (fst (handleGenerate (fun _ => Resolves (Some Scenario.hookOnlyReply))
            Scenario.form))
  = Some (JObject [("hook", JString "Try this!")])
  /\ hasAllKeys requiredKeys (JObject [("hook", JString "Try this!")]) = false.
Proof.
  assert (Hp : Json.parse Scenario.hookOnlyReply
               = Some (JObject [("hook", JString "Try this!")]))
    by (vm_compute; reflexivity).
  destruct (handleGenerate_stores_reply
              (fun _ => Resolves (Some Scenario.hookOnlyReply)) Scenario.form
              Scenario.hookOnlyReply _ eq_refl eq_refl Hp) as [H _].
  split; [|reflexivity]. apply H. split; [discriminate|reflexivity].
Defined.

(** ** Speech *)

Lemma optionEqb_true (a : option string) (key : string) :
  optionEqb a key = true <-> a = Some key.
Proof.
  destruct a as [k|]; simpl; [|split; discriminate].
  rewrite String.eqb_eq. split; [now intros -> | now intros [= ->]].
Qed.

Lemma speechStep_queue (voices : list string) (s : Speech) (e : SpeechEvent) :
  (length (queue s) <= 1)%nat -> (length (queue (speechStep voices s e)) <= 1)%nat.
Proof.
  intros H. destruct e as [key text|id|id]; simpl.
  - unfold handleListen. destruct (optionEqb (speakingKey (app s)) key); simpl; lia.
  - eapply Nat.le_trans; [apply filter_length_le | exact H].
  - eapply Nat.le_trans; [apply filter_length_le | exact H].
Qed.

Lemma speechRun_queue (voices : list string) (events : list SpeechEvent) :
  forall s, (length (queue s) <= 1)%nat ->
            (length (queue (speechRun voices s events)) <= 1)%nat.
Proof.
  induction events as [|e events IH]; intros s H; [exact H|].
  apply IH. now apply speechStep_queue.
Qed.

(** C5.  In every state reached from the initial one by listen requests
    and end or error notifications, at most one key is marked as speaking
    and at most one utterance is queued.  Listening to the key that is
    speaking cancels playback and clears the key; listening to any other
    key cancels whatever was queued and leaves the new utterance alone in
    the queue, with the new key as the speaking one. *)
Theorem handleListen_exclusive :
  forall (voices : list string) (events : list SpeechEvent),
    (forall k1 k2,
       isSpeaking (speechRun voices initialSpeech events) k1 = true ->
       isSpeaking (speechRun voices initialSpeech events) k2 = true ->
       k1 = k2)
    /\ (length (queue (speechRun voices initialSpeech events)) <= 1)%nat
    /\ (forall key text,
          isSpeaking (speechRun voices initialSpeech events) key = true ->
          speakingKey (app (handleListen voices key text
                              (speechRun voices initialSpeech events))) = None
          /\ queue (handleListen voices key text
                      (speechRun voices initialSpeech events)) = [])
    /\ (forall key text,
          isSpeaking (speechRun voices initialSpeech events) key = false ->
          speakingKey (app (handleListen voices key text
                              (speechRun voices initialSpeech events))) = Some key
          /\ (exists id voice,
                queue (handleListen voices key text
                         (speechRun voices initialSpeech events))
                = [{| utteranceId := id; utteranceText := text;
                      utteranceVoice := voice |}])
          /\ (forall other,
                isSpeaking (handleListen voices key text
                              (speechRun voices initialSpeech events)) other = true ->
                other = key)).
Proof.
  intros voices events. set (s := speechRun voices initialSpeech events).
  split; [|split; [|split]].
  - intros k1 k2 H1 H2. unfold isSpeaking in *.
    apply optionEqb_true in H1, H2. congruence.
  - apply speechRun_queue. simpl. lia.
  - intros key text H. unfold isSpeaking in H. unfold handleListen.
    rewrite H. split; reflexivity.
  - intros key text H. unfold isSpeaking in H. unfold handleListen.
    rewrite H. split; [reflexivity|]. split.
    + do 2 eexists. reflexivity.
    + intros other Ho. unfold isSpeaking in Ho. simpl in Ho.
      apply String.eqb_eq in Ho. now subst.
Qed.

Lemma handleListen_exclusive_witness :
  isSpeaking (speechRun [] initialSpeech [Listen "hook" "Try this!"]) "hook" = true
  /\ speakingKey (app (speechRun [] initialSpeech
                         [Listen "hook" "Try this!"; Listen "hook" "Try this!"]))
     = None
  /\ isSpeaking (speechRun [] initialSpeech [Listen "hook" "Try this!"])
       "introduction" = false
  /\ speakingKey (app (speechRun [] initialSpeech
                         [Listen "hook" "Try this!"; Listen "introduction" "..."]))
     = Some "introduction"
  /\ isSpeaking (speechRun [] initialSpeech
                   [Listen "hook" "Try this!"; Listen "introduction" "..."])
       "hook" = false.
Proof.
  destruct (handleListen_exclusive [] [Listen "hook" "Try this!"])
    as (_ & _ & Hoff & Hnew).
  split; [reflexivity|].
  split; [exact (proj1 (Hoff "hook" "Try this!" eq_refl))|].
  split; [reflexivity|].
  split; [exact (proj1 (Hnew "introduction" "..." eq_refl))|reflexivity].
Defined.

(** ** Pagination *)

Lemma beyond_false_iff (pageHeight : Q) (y : Z) :
  beyond pageHeight y = false
  <-> (y <= Qfloor (pageHeight - inject_Z margin))%Z.
Proof.
  unfold beyond. rewrite negb_false_iff, Qle_bool_iff. split; intros H.
  - apply Qfloor_resp_le in H. now rewrite Qfloor_Z in H.
  - apply Qle_trans with (inject_Z (Qfloor (pageHeight - inject_Z margin))).
    + now rewrite <- Zle_Qle.
    + apply Qfloor_le.
Qed.

(** The capacity counts the cursor positions that are not beyond the
    limit. *)
Lemma cursor_fits (pageHeight : Q) (k : nat) :
  beyond pageHeight (Spec.cursorAt k) = false
  <-> (k < Spec.pageCapacity pageHeight)%nat.
Proof.
  rewrite beyond_false_iff. unfold Spec.pageCapacity, Spec.cursorAt.
  set (limit := Qfloor (pageHeight - inject_Z margin)).
  unfold margin, lineHeight.
  destruct (limit <? 15)%Z eqn:E.
  - apply Z.ltb_lt in E. split; intros H; lia.
  - apply Z.ltb_ge in E.
    pose proof (Z.mul_div_le (limit - 15) 7 eq_refl) as Hlo.
    pose proof (Z.mul_succ_div_gt (limit - 15) 7 eq_refl) as Hhi.
    assert (Hq : (0 <= (limit - 15) / 7)%Z) by (apply Z.div_pos; lia).
    split; intros H; lia.
Qed.

Lemma length_pdfText (line : string) (x y : Z) (doc : PdfDoc) :
  length (pdfText line x y doc) = length doc.
Proof.
  induction doc as [|page rest IH]; [reflexivity|].
  destruct rest as [|page' rest]; [reflexivity|].
  change (S (length (pdfText line x y (page' :: rest))) = S (length (page' :: rest))).
  now rewrite IH.
Qed.

Lemma length_addPage (doc : PdfDoc) : length (addPage doc) = S (length doc).
Proof. unfold addPage. rewrite length_app. simpl. lia. Qed.

Lemma cursorAt_next (k : nat) :
  (Spec.cursorAt k + lineHeight)%Z = Spec.cursorAt (S k).
Proof. unfold Spec.cursorAt, lineHeight, margin. lia. Qed.

Lemma placeLine_fits (pageHeight : Q) (doc : PdfDoc) (k : nat) (line : string) :
  (k < Spec.pageCapacity pageHeight)%nat ->
  placeLine pageHeight (doc, Spec.cursorAt k) line
  = (pdfText line margin (Spec.cursorAt k) doc, Spec.cursorAt (S k)).
Proof.
  intros H. apply cursor_fits in H. unfold placeLine. rewrite H.
  now rewrite cursorAt_next.
Qed.

Lemma placeLine_breaks (pageHeight : Q) (doc : PdfDoc) (k : nat) (line : string) :
  (Spec.pageCapacity pageHeight <= k)%nat ->
  placeLine pageHeight (doc, Spec.cursorAt k) line
  = (pdfText line margin margin (addPage doc), Spec.cursorAt 1).
Proof.
  intros H. unfold placeLine.
  destruct (beyond pageHeight (Spec.cursorAt k)) eqn:E; [reflexivity|].
  apply cursor_fits in E. lia.
Qed.

Lemma fold_placeLine_fits (pageHeight : Q) (textLines : list string) :
  forall (doc : PdfDoc) (k : nat),
    (k + length textLines <= Spec.pageCapacity pageHeight)%nat ->
    exists doc',
      fold_left (placeLine pageHeight) textLines (doc, Spec.cursorAt k)
      = (doc', Spec.cursorAt (k + length textLines))
      /\ length doc' = length doc.
Proof.
  induction textLines as [|line rest IH]; intros doc k H.
  - exists doc. simpl. now rewrite Nat.add_0_r.
  - simpl in H. cbn [fold_left]. rewrite placeLine_fits by lia.
    destruct (IH (pdfText line margin (Spec.cursorAt k) doc) (S k)) as (doc' & E & L);
      [lia|].
    exists doc'. rewrite E. simpl length. rewrite Nat.add_succ_r.
    split; [reflexivity|]. now rewrite L, length_pdfText.
Qed.

Lemma placeLine_grows (pageHeight : Q) (acc : PdfDoc * Z) (line : string) :
  (length (fst acc) <= length (fst (placeLine pageHeight acc line)))%nat.
Proof.
  destruct acc as [doc y]. unfold placeLine.
  destruct (beyond pageHeight y); simpl; rewrite length_pdfText;
    [rewrite length_addPage; lia | lia].
Qed.

Lemma fold_placeLine_grows (pageHeight : Q) (textLines : list string) :
  forall acc : PdfDoc * Z,
    (length (fst acc)
     <= length (fst (fold_left (placeLine pageHeight) textLines acc)))%nat.
Proof.
  induction textLines as [|line rest IH]; intros acc; [apply le_n|].
  simpl. eapply Nat.le_trans; [apply placeLine_grows | apply IH].
Qed.

Lemma paginate_fits (pageHeight : Q) (textLines : list string) :
  (length textLines <= Spec.pageCapacity pageHeight)%nat ->
  length (paginate pageHeight textLines) = 1%nat.
Proof.
  intros H. unfold paginate. change 15%Z with (Spec.cursorAt 0).
  destruct (fold_placeLine_fits pageHeight textLines newPdf 0 H) as (doc' & E & L).
  now rewrite E.
Qed.

Lemma paginate_overflows (pageHeight : Q) (textLines : list string) :
  (Spec.pageCapacity pageHeight < length textLines)%nat ->
  (1 < length (paginate pageHeight textLines))%nat.
Proof.
  intros H. unfold paginate. change 15%Z with (Spec.cursorAt 0).
  rewrite <- (firstn_skipn (Spec.pageCapacity pageHeight) textLines).
  rewrite fold_left_app.
  assert (Hn : length (firstn (Spec.pageCapacity pageHeight) textLines)
               = Spec.pageCapacity pageHeight) by (apply firstn_length_le; lia).
  destruct (fold_placeLine_fits pageHeight
              (firstn (Spec.pageCapacity pageHeight) textLines) newPdf 0)
    as (doc' & E & L); [lia|].
  rewrite E, Hn. simpl Nat.add.
  destruct (skipn (Spec.pageCapacity pageHeight) textLines) as [|line rest] eqn:Es.
  - apply (f_equal (@length string)) in Es. rewrite length_skipn in Es.
    simpl in Es. lia.
  - cbn [fold_left]. rewrite placeLine_breaks by lia.
    eapply Nat.lt_le_trans; [|apply fold_placeLine_grows].
    simpl. rewrite length_pdfText, length_addPage, L. simpl. lia.
Qed.

(** C6.  The page walk starts at the top margin and moves down by the
    line height; a line whose cursor is beyond the page height minus the
    margin goes to the top of a new page.  A page therefore takes
    [pageCapacity] lines, and the exported document has one page when the
    wrapped lines are at most that many and more than one page when they
    are more. *)
Theorem handleExportPdf_pages :
  forall (up : string -> string) (pageHeight : Q)
         (splitTextToSize : string -> list string) (sections : Sections),
    (forall (doc : PdfDoc) (y : Z) (line : string),
       placeLine pageHeight (doc, y) line
       = if beyond pageHeight y
         then (pdfText line margin margin (addPage doc), (margin + lineHeight)%Z)
         else (pdfText line margin y doc, (y + lineHeight)%Z))
    /\ (forall k : nat,
          beyond pageHeight (margin + lineHeight * Z.of_nat k)%Z = false
          <-> (k < Spec.pageCapacity pageHeight)%nat)
    /\ exists pdf : PdfDoc,
         handleExportPdf up pageHeight splitTextToSize (Some sections) = Some pdf
         /\ ((length (splitTextToSize (getFullScriptText up (Some sections) false))
              <= Spec.pageCapacity pageHeight)%nat ->
             length pdf = 1%nat)
         /\ ((Spec.pageCapacity pageHeight
              < length (splitTextToSize (getFullScriptText up (Some sections) false)))%nat ->
             (1 < length pdf)%nat).
Proof.
  intros up pageHeight splitTextToSize sections. split; [|split].
  - intros doc y line. unfold placeLine. now destruct (beyond pageHeight y).
  - intros k. apply (cursor_fits pageHeight k).
  - eexists. split; [reflexivity|]. split.
    + apply paginate_fits.
    + apply paginate_overflows.
Qed.

Lemma handleExportPdf_pages_witness :
  Spec.pageCapacity (297 # 1) = 39%nat
  /\ (exists pdf,
        handleExportPdf (fun s => s) (297 # 1) (fun _ => repeat "line" 39)
          (Some Scenario.sections) = Some pdf
        /\ length pdf = 1%nat)
  /\ (exists pdf,
        handleExportPdf (fun s => s) (297 # 1) (fun _ => repeat "line" 40)
          (Some Scenario.sections) = Some pdf
        /\ (1 < length pdf)%nat).
Proof.
  split; [reflexivity|]. split.
  - destruct (handleExportPdf_pages (fun s => s) (297 # 1)
                (fun _ => repeat "line" 39) Scenario.sections)
      as (_ & _ & pdf & E & Hfit & _).
    exists pdf. split; [exact E|]. apply Hfit. vm_compute. lia.
  - destruct (handleExportPdf_pages (fun s => s) (297 # 1)
                (fun _ => repeat "line" 40) Scenario.sections)
      as (_ & _ & pdf & E & _ & Hover).
    exists pdf. split; [exact E|]. apply Hover. vm_compute. lia.
Defined.

(** The number of pages, for a page that takes at least one line. *)
Lemma fold_placeLine_count (pageHeight : Q) (textLines : list string) :
  forall (doc : PdfDoc) (k : nat),
    (0 < Spec.pageCapacity pageHeight)%nat ->
    (k <= Spec.pageCapacity pageHeight)%nat ->
    length (fst (fold_left (placeLine pageHeight) textLines (doc, Spec.cursorAt k)))
    = (length doc
       + (k + length textLines - 1) / Spec.pageCapacity pageHeight
       - (k - 1) / Spec.pageCapacity pageHeight)%nat.
Proof.
  set (cap := Spec.pageCapacity pageHeight).
  induction textLines as [|line rest IH]; intros doc k Hcap Hk.
  - simpl. rewrite Nat.add_0_r. lia.
  - cbn [fold_left]. destruct (Nat.eq_dec k cap) as [E|E].
    + rewrite placeLine_breaks by (fold cap; lia).
      rewrite IH by (fold cap; lia).
      rewrite length_pdfText, length_addPage. simpl length.
      replace (1 - 1)%nat with 0%nat by lia.
      replace (1 + length rest - 1)%nat with (length rest) by lia.
      replace (k + S (length rest) - 1)%nat with (1 * cap + length rest)%nat by lia.
      rewrite Nat.div_add_l by lia.
      rewrite (Nat.div_small (k - 1) cap) by lia.
      rewrite (Nat.div_small 0 cap) by lia. lia.
    + rewrite placeLine_fits by (fold cap; lia).
      rewrite IH by (fold cap; lia).
      rewrite length_pdfText. simpl length.
      replace (S k + length rest - 1)%nat with (k + S (length rest) - 1)%nat by lia.
      rewrite (Nat.div_small (S k - 1) cap) by lia.
      rewrite (Nat.div_small (k - 1) cap) by lia. reflexivity.
Qed.

Lemma paginate_page_count (pageHeight : Q) (textLines : list string) :
  (0 < Spec.pageCapacity pageHeight)%nat ->
  length (paginate pageHeight textLines)
  = (1 + (length textLines - 1) / Spec.pageCapacity pageHeight)%nat.
Proof.
  intros Hcap. unfold paginate. change 15%Z with (Spec.cursorAt 0).
  rewrite fold_placeLine_count by lia. simpl.
  rewrite (Nat.div_small 0) by lia. lia.
Qed.

Example paginate_two_pages :
  paginate (44 # 1) ["a"; "b"; "c"; "d"]
  = [ [ {| placedText := "a"; placedX := 15; placedY := 15 |};
        {| placedText := "b"; placedX := 15; placedY := 22 |};
        {| placedText := "c"; placedX := 15; placedY := 29 |} ];
      [ {| placedText := "d"; placedX := 15; placedY := 15 |} ] ].
Proof. vm_compute. reflexivity. Qed.

(** A late report about a cancelled utterance clears the key of the one
    that replaced it. *)
Example late_report :
  speakingKey (app (speechRun [] initialSpeech
                      [Listen "hook" "Try this!"; Listen "introduction" "...";
                       Failed 0]))
  = None
  /\ map utteranceText
       (queue (speechRun [] initialSpeech
                 [Listen "hook" "Try this!"; Listen "introduction" "...";
                  Failed 0]))
     = ["..."].
Proof. split; reflexivity. Qed.

(* ================================================================== *)
(** * Further properties of the component *)
(* ================================================================== *)

(** ** Platform selection *)

Lemma includes_In (p : string) (l : list string) :
  includes p l = true <-> In p l.
Proof.
  unfold includes. rewrite existsb_exists. split.
  - intros (x & Hx & E). apply String.eqb_eq in E. now subst.
  - intros H. exists p. split; [exact H|apply String.eqb_refl].
Qed.

Lemma includes_false (p : string) (l : list string) :
  includes p l = false <-> ~ In p l.
Proof.
  rewrite <- includes_In. destruct (includes p l); split; congruence.
Qed.

Lemma In_filter_other (p q : string) (l : list string) :
  In q (filter (fun x => negb (String.eqb x p)) l) <-> In q l /\ q <> p.
Proof.
  rewrite filter_In. split; intros [H1 H2]; split; try exact H1.
  - apply negb_true_iff, String.eqb_neq in H2. exact H2.
  - apply negb_true_iff, String.eqb_neq. exact H2.
Qed.

Lemma filter_absent (p : string) (l : list string) :
  ~ In p l -> filter (fun x => negb (String.eqb x p)) l = l.
Proof.
  induction l as [|x l IH]; intros H; [reflexivity|].
  simpl. destruct (String.eqb_spec x p) as [E|E].
  - exfalso. apply H. left. exact E.
  - simpl. rewrite IH; [reflexivity|]. intros Hin. apply H. now right.
Qed.

(** X1.  Pressing a platform button flips that platform's selection and
    leaves every other platform as it was. *)
Theorem togglePlatform_membership :
  forall (platform other : string) (prev : list string),
    includes other (togglePlatform platform prev)
    = if String.eqb other platform then negb (includes platform prev)
      else includes other prev.
Proof.
  intros p q prev. unfold togglePlatform.
  destruct (includes p prev) eqn:E.
  - destruct (String.eqb_spec q p) as [->|N].
    + apply includes_false. rewrite In_filter_other. intros [_ H]. now apply H.
    + destruct (includes q prev) eqn:Eq.
      * apply includes_In. rewrite In_filter_other. split; [|exact N].
        now apply includes_In.
      * apply includes_false. rewrite In_filter_other. intros [H _].
        apply includes_false in Eq. contradiction.
  - unfold includes in *. rewrite existsb_app. simpl. rewrite orb_false_r.
    destruct (String.eqb_spec q p) as [->|N].
    + rewrite E. reflexivity.
    + apply orb_false_r.
Qed.

Lemma togglePlatform_NoDup (p : string) (prev : list string) :
  NoDup prev -> NoDup (togglePlatform p prev).
Proof.
  intros H. unfold togglePlatform. destruct (includes p prev) eqn:E.
  - now apply NoDup_filter.
  - apply includes_false in E. induction prev as [|x l IH]; simpl.
    + constructor; [intros []|constructor].
    + inversion H as [|? ? Hx Hl]; subst. constructor.
      * rewrite in_app_iff. intros [Hin|[<-|[]]]; [contradiction|].
        apply E. now left.
      * apply IH; [exact Hl|]. intros Hin. apply E. now right.
Qed.

(** X2.  Whatever buttons are pressed, starting from the initial
    selection, no platform is ever selected twice. *)
Theorem selectedPlatforms_NoDup :
  forall pressed : list string,
    NoDup (selectedPlatforms
             (fold_left (fun st p => handlePlatformToggle p st) pressed initialApp)).
Proof.
  intros pressed.
  assert (G : forall st, NoDup (selectedPlatforms st) ->
              NoDup (selectedPlatforms
                       (fold_left (fun st p => handlePlatformToggle p st) pressed st))).
  { induction pressed as [|p l IH]; intros st H; [exact H|].
    simpl. apply IH. simpl. now apply togglePlatform_NoDup. }
  apply G. simpl. constructor; [intros []|constructor].
Qed.

(** X3.  Pressing the same button twice restores the list when the
    platform was not selected; when it was, the platform ends up selected
    again but last in the list. *)
Theorem togglePlatform_twice :
  forall (platform : string) (prev : list string),
    togglePlatform platform (togglePlatform platform prev)
    = if includes platform prev
      then (filter (fun p => negb (String.eqb p platform)) prev ++ [platform])%list
      else prev.
Proof.
  intros p prev. unfold togglePlatform at 2.
  destruct (includes p prev) eqn:E.
  - unfold togglePlatform.
    replace (includes p (filter (fun x => negb (String.eqb x p)) prev)) with false;
      [reflexivity|].
    symmetry. apply includes_false. rewrite In_filter_other. intros [_ H]. now apply H.
  - unfold togglePlatform.
    replace (includes p (prev ++ [p])) with true.
    + rewrite filter_app. simpl. rewrite String.eqb_refl. simpl.
      rewrite app_nil_r. apply filter_absent. now apply includes_false.
    + symmetry. apply includes_In. rewrite in_app_iff. right. now left.
Qed.

(** X4.  Deselecting the only selected platform makes the next generation
    stop at the platform message, with nothing sent. *)
Theorem deselect_last_platform :
  forall (provider : Request -> ProviderResult) (st : App) (platform : string),
    selectedPlatforms st = [platform] ->
    ~ Spec.Blank (scriptContent st) ->
    handleGenerate provider (handlePlatformToggle platform st)
    = (setError (Some msgNoPlatform) (handlePlatformToggle platform st), []).
Proof.
  intros provider st p Hsel Hidea. unfold handleGenerate.
  change (scriptContent (handlePlatformToggle p st)) with (scriptContent st).
  destruct (JS.isEmpty (JS.trim (scriptContent st))) eqn:E.
  - apply trim_empty_iff_Blank in E. contradiction.
  - unfold handlePlatformToggle at 1. simpl selectedPlatforms. rewrite Hsel.
    unfold togglePlatform, includes. simpl. rewrite String.eqb_refl. reflexivity.
Qed.

Lemma deselect_last_platform_witness :
  handleGenerate (fun _ => Resolves (Some Scenario.reply))
    (handlePlatformToggle "Instagram" Scenario.form)
  = (setError (Some msgNoPlatform) (handlePlatformToggle "Instagram" Scenario.form), []).
Proof.
  apply (deselect_last_platform _ Scenario.form "Instagram" eq_refl).
  intros H. apply trim_empty_iff_Blank in H. discriminate H.
Defined.

(** ** The stored reply and its typed reading *)

Section StoredFacts.

Variable roundsToZero : string -> bool.
Variable numberToString : string -> string.
Variable up : string -> string.

Lemma mapThrowing_dashes (items : list json) (texts : list string) :
  asStrings items = Some texts ->
  mapThrowing (fun s => andThen (toStringValue numberToString s)
                          (fun t => Returns ("- " ++ t))) items
  = Returns (map (fun s => "- " ++ s) texts).
Proof.
  revert texts. induction items as [|x rest IH]; intros texts H.
  - injection H as <-. reflexivity.
  - destruct x; try discriminate H. simpl in H.
    destruct (asStrings rest) as [l|]; [|discriminate]. injection H as <-.
    cbn [mapThrowing toStringValue andThen map]. now rewrite (IH l eq_refl).
Qed.

Lemma dashedProperty_strings (items : list json) (texts : list string) :
  asStrings items = Some texts ->
  dashedProperty numberToString (Some (JArray items)) = Returns (dashed texts).
Proof.
  intros H. unfold dashedProperty. now rewrite (mapThrowing_dashes _ _ H).
Qed.

Lemma renderStoredEntry_typed (key : string) (value : json)
  (typed : GeneratedSectionValue) :
  asSectionValue value = Some typed ->
  renderStoredEntry numberToString up (key, value)
  = Returns (renderEntry up (key, typed)).
Proof.
  destruct value as [| | |s|items|props]; try discriminate.
  - intros [= <-]. reflexivity.
  - unfold asSectionValue, asVisualIdeas. cbn [renderStoredEntry].
    destruct (Json.lookup "shotSuggestions" props) as [[| | | |shots|]|];
      try discriminate.
    destruct (Json.lookup "bRoll" props) as [[| | | |rolls|]|]; try discriminate.
    destruct (asStrings shots) as [ss|] eqn:Es; [|discriminate].
    destruct (asStrings rolls) as [bs|] eqn:Eb; [|discriminate].
    intros [= <-].
    rewrite (dashedProperty_strings _ _ Es), (dashedProperty_strings _ _ Eb).
    reflexivity.
Qed.

Lemma mapThrowing_entries (props : list (string * json)) (doc : Sections) :
  asEntries props = Some doc ->
  mapThrowing (renderStoredEntry numberToString up) props
  = Returns (map (renderEntry up) doc).
Proof.
  revert doc. induction props as [|[k v] rest IH]; intros doc H.
  - injection H as <-. reflexivity.
  - simpl in H. destruct (asSectionValue v) as [sv|] eqn:Ev; [|discriminate].
    destruct (asEntries rest) as [l|]; [|discriminate]. injection H as <-.
    cbn [mapThrowing map]. rewrite (renderStoredEntry_typed _ _ _ Ev).
    cbn [andThen]. now rewrite (IH l eq_refl).
Qed.

(** On a stored value of the declared type the code's flattening is the
    typed one; outside that type the code still renders, or throws. *)
Lemma getStoredScriptText_typed (st : App) (doc : Sections) (forCopy : bool) :
  document st = Some doc ->
  getStoredScriptText roundsToZero numberToString up (generatedSections st)
  = Returns (getFullScriptText up (Some doc) forCopy).
Proof.
  unfold document. destruct (generatedSections st) as [j|]; [|discriminate].
  destruct j as [| | | | |props]; try discriminate. simpl asSections.
  intros H. unfold getStoredScriptText. cbn [truthy objectEntries].
  now rewrite (mapThrowing_entries _ _ H).
Qed.

Lemma getStoredScriptText_nothing :
  getStoredScriptText roundsToZero numberToString up None = Returns EmptyString.
Proof. reflexivity. Qed.

End StoredFacts.

(** Stored values outside the declared type: an array of strings is
    rendered under its indices, a section whose value is a number renders
    as nothing, a section without its lists throws. *)
Example getStoredScriptText_untyped :
  getStoredScriptText (fun _ => false) (fun l => l) (fun s => s)
    (Some (JArray [JString "x"; JString "y"]))
  = Returns ("0" ++ JS.LF ++ "x" ++ JS.LF ++ JS.LF ++ "1" ++ JS.LF ++ "y")
  /\ getStoredScriptText (fun _ => false) (fun l => l) (fun s => s)
       (Some (JObject [("hook", JNumber "5"); ("intro", JString "a")]))
     = Returns (JS.LF ++ JS.LF ++ "Intro" ++ JS.LF ++ "a")
  /\ getStoredScriptText (fun _ => false) (fun l => l) (fun s => s)
       (Some (JObject [("visualIdeas", JObject [])]))
     = ThrowsTypeError
  /\ getStoredScriptText (fun _ => false) (fun l => l) (fun s => s)
       (Some (JString "ab"))
     = Returns ("0" ++ JS.LF ++ "a" ++ JS.LF ++ JS.LF ++ "1" ++ JS.LF ++ "b")
  /\ getStoredScriptText (fun _ => false) (fun l => l) (fun s => s)
       (Some (JBool false))
     = Returns EmptyString.
Proof. repeat split. Qed.

(** ** Outcomes of a generation *)






(** X6.  A reply that is not JSON, and equally the reply null, which
    parses but has no property to read, ends with the format message and
    no document. *)
Theorem handleGenerate_format_error :
  forall (provider : Request -> ProviderResult) (st : App) (text : string),
    snd (handleGenerate provider st) = [buildRequest st] ->
    provider (buildRequest st) = Resolves (Some text) ->
    text <> EmptyString ->
    Json.parse text = None \/ Json.parse text = Some JNull ->
    generatedSections (fst (handleGenerate provider st)) = None
    /\ error (fst (handleGenerate provider st)) = Some msgFormat.
Proof.
  intros provider st text Hsent Hreply Hne Hparse.
  rewrite (handleGenerate_sent _ _ Hsent), Hreply. unfold handleResult.
  destruct text as [|c r]; [congruence|]. cbn [JS.isEmpty].
  unfold handleReplyText. destruct Hparse as [-> | ->]; split; reflexivity.
Qed.

Lemma handleGenerate_format_error_witness :
  error (fst (handleGenerate (fun _ => Resolves (Some "null")) Scenario.form))
  = Some msgFormat
  /\ error (fst (handleGenerate (fun _ => Resolves (Some "{hook")) Scenario.form))
     = Some msgFormat.
Proof.
  split.
  - apply (handleGenerate_format_error (fun _ => Resolves (Some "null"))
             Scenario.form "null" eq_refl eq_refl); [discriminate|].
    right. vm_compute. reflexivity.
  - apply (handleGenerate_format_error (fun _ => Resolves (Some "{hook"))
             Scenario.form "{hook" eq_refl eq_refl); [discriminate|].
    left. vm_compute. reflexivity.
Defined.



(** X8.  No run of [handleGenerate], whatever its outcome, touches the
    form fields, the platform selection, the copied key or the speech
    state. *)
Theorem handleGenerate_frame :
  forall (provider : Request -> ProviderResult) (st : App),
    scriptContent (fst (handleGenerate provider st)) = scriptContent st
    /\ wordCount (fst (handleGenerate provider st)) = wordCount st
    /\ advancedInstructions (fst (handleGenerate provider st))
       = advancedInstructions st
    /\ selectedPlatforms (fst (handleGenerate provider st)) = selectedPlatforms st
    /\ copiedKey (fst (handleGenerate provider st)) = copiedKey st
    /\ selectedVoiceURI (fst (handleGenerate provider st)) = selectedVoiceURI st
    /\ speakingKey (fst (handleGenerate provider st)) = speakingKey st.
Proof.
  intros provider st. unfold handleGenerate.
  destruct (JS.isEmpty (JS.trim (scriptContent st))); [repeat split|].
  destruct (length (selectedPlatforms st) =? 0)%nat; [repeat split|].
  cbv zeta. destruct (provider (buildRequest st)) as [[m|]|[text|]];
    try (repeat split; fail).
  unfold handleResult. destruct (JS.isEmpty text); [repeat split|].
  unfold handleReplyText. destruct (Json.parse text) as [j|]; [|repeat split].
  destruct (readHook j) as [| |v]; [repeat split|repeat split|].
  destruct (isViolation (Value v)); repeat split.
Qed.

(** ** The prompt, again *)

Lemma trimStart_minus (r : string) :
  JS.trimStart (String "-" r) = String "-" r.
Proof. destruct r as [|c2 [|c3 r3]]; reflexivity. Qed.

Lemma parseInt_minus (r : string) (n : Z) :
  JS.parseInt (String "-" r) = Some n -> (n <= 0)%Z.
Proof.
  unfold JS.parseInt. rewrite trimStart_minus. cbn [JS.stripSign].
  change (JS.code "-" =? 45) with true. cbv iota.
  destruct (JS.stripHexPrefix r) as [radix s2].
  destruct (JS.digitsFrom radix None s2) as [m|]; [|discriminate].
  intros [= <-]. lia.
Qed.

(** X9.  With blank style instructions and a word count that is empty or
    starts with a minus sign, the prompt is the base text alone: neither
    directive is added. *)
Theorem buildPrompt_base_only :
  forall st : App,
    Spec.Blank (advancedInstructions st) ->
    wordCount st = EmptyString \/ (exists r, wordCount st = String "-" r) ->
    buildPrompt st = promptBase (selectedPlatforms st) (scriptContent st).
Proof.
  intros st Hb Hw. rewrite buildPrompt_parts.
  unfold Spec.styleDirective. apply trim_empty_iff_Blank in Hb. rewrite Hb.
  replace (wordCountGiven (wordCount st)) with false.
  - simpl. now rewrite append_nil_r.
  - symmetry. destruct Hw as [-> | [r ->]]; [reflexivity|].
    unfold wordCountGiven. simpl negb. cbn [andb].
    destruct (JS.parseInt (String "-" r)) as [n|] eqn:E; [|reflexivity].
    apply parseInt_minus in E. apply Z.ltb_ge. exact E.
Qed.

Lemma buildPrompt_base_only_witness :
  buildPrompt (setSelectedPlatforms ["TikTok"]
                 {| scriptContent := "Tea"; wordCount := "-20";
                    advancedInstructions := "  ";
                    selectedPlatforms := []; generatedSections := None;
                    isLoading := false; error := None; copiedKey := None;
                    selectedVoiceURI := None; speakingKey := None |})
  = promptBase ["TikTok"] "Tea".
Proof.
  apply (buildPrompt_base_only
           (setSelectedPlatforms ["TikTok"]
              {| scriptContent := "Tea"; wordCount := "-20";
                 advancedInstructions := "  ";
                 selectedPlatforms := []; generatedSections := None;
                 isLoading := false; error := None; copiedKey := None;
                 selectedVoiceURI := None; speakingKey := None |})).
  - apply trim_empty_iff_Blank. reflexivity.
  - right. exists "20". reflexivity.
Defined.

(** ** What the flattened texts hold *)

Lemma contains_trans (a b c : string) :
  Spec.contains a b -> Spec.contains b c -> Spec.contains a c.
Proof.
  intros (p & q & ->) (p' & q' & ->). exists (p ++ p'), (q' ++ q).
  now rewrite !append_assoc.
Qed.

Lemma contains_join (sep x : string) (l : list string) :
  In x l -> Spec.contains (JS.join sep l) x.
Proof.
  induction l as [|y l IH]; intros H; [destruct H|].
  destruct l as [|z l].
  - destruct H as [->|[]]. apply contains_refl.
  - rewrite join_cons2. destruct H as [->|H].
    + apply contains_app_l, contains_refl.
    + do 2 apply contains_app_r. now apply IH.
Qed.

Lemma contains_dashed (item : string) (items : list string) :
  In item items -> Spec.contains (dashed items) item.
Proof.
  intros H. unfold dashed.
  apply contains_trans with ("- " ++ item).
  - apply contains_join. apply in_map_iff. now exists item.
  - apply contains_app_r, contains_refl.
Qed.

Lemma renderEntry_contains (up : string -> string) (key : string)
  (value : GeneratedSectionValue) (item : string) :
  In item (Extra.contents value) ->
  Spec.contains (renderEntry up (key, value)) item.
Proof.
  destruct value as [body|v]; simpl Extra.contents; intros H.
  - destruct H as [<-|[]]. unfold renderEntry.
    do 2 apply contains_app_r. apply contains_refl.
  - unfold renderEntry. apply in_app_iff in H. destruct H as [H|H].
    + do 4 apply contains_app_r. apply contains_app_l. now apply contains_dashed.
    + do 9 apply contains_app_r. now apply contains_dashed.
Qed.

(** X10.  Nothing of a document is dropped by the flatteners: the title
    of every section and every body, shot and b-roll item occur in the
    full text, and every body, shot and b-roll item occurs in the text
    copied and in the text spoken for its section. *)
Theorem flattening_keeps_contents :
  forall (up : string -> string) (doc : Sections) (forCopy : bool)
         (key : string) (value : GeneratedSectionValue),
    In (key, value) doc ->
    Spec.contains (getFullScriptText up (Some doc) forCopy) (formatTitle up key)
    /\ (forall item, In item (Extra.contents value) ->
          Spec.contains (getFullScriptText up (Some doc) forCopy) item
          /\ Spec.contains (sectionCopyText value) item
          /\ Spec.contains (sectionSpeechText value) item).
Proof.
  intros up doc forCopy key value Hin.
  assert (Hentry : Spec.contains (getFullScriptText up (Some doc) forCopy)
                     (renderEntry up (key, value))).
  { unfold getFullScriptText. apply contains_join.
    apply in_map_iff. now exists (key, value). }
  split.
  - eapply contains_trans; [exact Hentry|].
    destruct value; unfold renderEntry; apply contains_app_l, contains_refl.
  - intros item Hitem. split; [|split].
    + eapply contains_trans; [exact Hentry|]. now apply renderEntry_contains.
    + clear Hin Hentry. destruct value as [body|v]; simpl Extra.contents in Hitem.
      * destruct Hitem as [<-|[]]. apply contains_refl.
      * unfold sectionCopyText. apply in_app_iff in Hitem. destruct Hitem as [H|H].
        -- do 2 apply contains_app_r. apply contains_app_l. now apply contains_join.
        -- do 7 apply contains_app_r. now apply contains_join.
    + clear Hin Hentry. destruct value as [body|v]; simpl Extra.contents in Hitem.
      * destruct Hitem as [<-|[]]. apply contains_refl.
      * unfold sectionSpeechText. apply in_app_iff in Hitem. destruct Hitem as [H|H].
        -- apply contains_app_r, contains_app_l. now apply contains_join.
        -- do 3 apply contains_app_r. now apply contains_join.
Qed.

Lemma flattening_keeps_contents_witness :
  Spec.contains (getFullScriptText (fun s => s) (Some Scenario.sections) false)
    "Visual Ideas"
  /\ Spec.contains (getFullScriptText (fun s => s) (Some Scenario.sections) false)
       "clouds"
  /\ Spec.contains (sectionSpeechText (Visual Scenario.ideas)) "clouds".
Proof.
  destruct (flattening_keeps_contents (fun s => s) Scenario.sections false
              "visualIdeas" (Visual Scenario.ideas)) as [H1 H2].
  - simpl. auto 10.
  - destruct (H2 "clouds") as (H3 & _ & H5); [simpl; auto|].
    split; [exact H1|]. split; [exact H3|exact H5].
Defined.

Lemma renderEntry_nonempty (up : string -> string)
  (entry : string * GeneratedSectionValue) :
  renderEntry up entry <> EmptyString.
Proof.
  destruct entry as [key value]. intros E.
  apply (f_equal String.length) in E.
  destruct value; unfold renderEntry in E; rewrite !length_append in E;
    simpl in E; lia.
Qed.

(** X11.  The full text is empty exactly when there is no document or
    the document has no section. *)
Theorem getFullScriptText_empty :
  forall (up : string -> string) (doc : option Sections) (forCopy : bool),
    getFullScriptText up doc forCopy = EmptyString
    <-> doc = None \/ doc = Some [].
Proof.
  intros up doc forCopy. split.
  - destruct doc as [[|e rest]|]; [now right| |now left].
    intros H. exfalso. unfold getFullScriptText in H. simpl map in H.
    destruct (map (renderEntry up) rest) as [|x l].
    + now apply (renderEntry_nonempty up e).
    + rewrite join_cons2 in H. apply (renderEntry_nonempty up e).
      destruct (renderEntry up e); [reflexivity|discriminate].
  - intros [-> | ->]; reflexivity.
Qed.

(** ** Titles tell keys apart *)

Lemma spaceBeforeCapitals_first (s : string) (c : ascii) (r : string) :
  spaceBeforeCapitals s = String c r -> isCapital c = false.
Proof.
  destruct s as [|x s]; [discriminate|]. simpl.
  destruct (isCapital x) eqn:E; intros [= <- _]; [reflexivity|exact E].
Qed.

Lemma spaceBeforeCapitals_injective (s1 : string) :
  forall s2, spaceBeforeCapitals s1 = spaceBeforeCapitals s2 -> s1 = s2.
Proof.
  induction s1 as [|c1 r1 IH]; intros [|c2 r2] H.
  - reflexivity.
  - simpl in H. destruct (isCapital c2); discriminate.
  - simpl in H. destruct (isCapital c1); discriminate.
  - simpl in H. destruct (isCapital c1) eqn:E1; destruct (isCapital c2) eqn:E2.
    + injection H as -> H. f_equal. now apply IH.
    + injection H as <- H. symmetry in H.
      apply spaceBeforeCapitals_first in H. congruence.
    + injection H as -> H.
      apply spaceBeforeCapitals_first in H. congruence.
    + injection H as -> H. f_equal. now apply IH.
Qed.

Lemma code_injective (c1 c2 : ascii) : JS.code c1 = JS.code c2 -> c1 = c2.
Proof.
  intros H. rewrite <- (ascii_N_embedding c1), <- (ascii_N_embedding c2).
  unfold JS.code in H. now rewrite H.
Qed.

Lemma code_chr (n : N) : n < 256 -> JS.code (JS.chr n) = n.
Proof. apply N_ascii_embedding. Qed.

Lemma code_bound (c : ascii) : JS.code c < 256.
Proof. apply N_ascii_bounded. Qed.

Lemma toUpperAscii_injective (c1 c2 : ascii) :
  isCapital c1 = false -> isCapital c2 = false ->
  JS.toUpperAscii c1 = JS.toUpperAscii c2 -> c1 = c2.
Proof.
  unfold isCapital, JS.toUpperAscii, JS.inRange. intros H1 H2 H.
  pose proof (code_bound c1) as B1. pose proof (code_bound c2) as B2.
  apply andb_false_iff in H1, H2.
  rewrite !N.leb_gt in H1, H2.
  destruct ((97 <=? JS.code c1) && (JS.code c1 <=? 122)) eqn:L1;
    destruct ((97 <=? JS.code c2) && (JS.code c2 <=? 122)) eqn:L2;
    try (apply andb_true_iff in L1; destruct L1 as [L1a L1b];
         apply N.leb_le in L1a, L1b);
    try (apply andb_true_iff in L2; destruct L2 as [L2a L2b];
         apply N.leb_le in L2a, L2b).
  - apply (f_equal JS.code) in H. rewrite !code_chr in H by lia.
    apply code_injective. lia.
  - apply (f_equal JS.code) in H. rewrite code_chr in H by lia. lia.
  - apply (f_equal JS.code) in H. rewrite code_chr in H by lia. lia.
  - exact H.
Qed.

Lemma spaceBeforeCapitals_asciiLead (s : string) :
  Extra.asciiLead s -> Extra.asciiLead (spaceBeforeCapitals s).
Proof.
  destruct s as [|c r]; [exact (fun H => H)|]. simpl.
  destruct (isCapital c); simpl; [intros _; reflexivity|exact (fun H => H)].
Qed.

(** X12.  Two different keys never get the same title, as long as
    neither starts with a character outside ASCII. *)
Theorem formatTitle_injective :
  forall (up : string -> string) (key1 key2 : string),
    Extra.asciiLead key1 -> Extra.asciiLead key2 ->
    formatTitle up key1 = formatTitle up key2 -> key1 = key2.
Proof.
  intros up k1 k2 A1 A2 H. apply spaceBeforeCapitals_injective.
  unfold formatTitle in H. rewrite !upperFirst_capitalizeFirst in H.
  apply spaceBeforeCapitals_asciiLead in A1, A2.
  destruct (spaceBeforeCapitals k1) as [|c1 r1] eqn:E1;
    destruct (spaceBeforeCapitals k2) as [|c2 r2] eqn:E2; simpl in *.
  - reflexivity.
  - apply N.ltb_lt in A2. rewrite A2 in H. discriminate.
  - apply N.ltb_lt in A1. rewrite A1 in H. discriminate.
  - apply N.ltb_lt in A1, A2. rewrite A1, A2 in H. injection H as Hc ->.
    f_equal. apply spaceBeforeCapitals_first in E1, E2.
    now apply toUpperAscii_injective.
Qed.

Lemma formatTitle_injective_witness :
  Extra.asciiLead "mainContent"
  /\ "mainContent" = "mainContent"
  /\ formatTitle (fun s => s) "hook" <> formatTitle (fun s => s) "Hook".
Proof.
  split; [reflexivity|]. split.
  - apply (formatTitle_injective (fun s => s) "mainContent" "mainContent");
      reflexivity.
  - intros E.
    apply (formatTitle_injective (fun s => s) "hook" "Hook") in E;
      [discriminate E|reflexivity|reflexivity].
Defined.

(** ** Pages of the PDF *)

Lemma pdfText_nonempty (line : string) (x y : Z) (doc : PdfDoc) :
  doc <> [] -> pdfText line x y doc <> [].
Proof.
  destruct doc as [|page [|page' rest]]; [congruence| |]; intros _; discriminate.
Qed.

Lemma concat_pdfText (line : string) (x y : Z) (doc : PdfDoc) :
  doc <> [] ->
  concat (pdfText line x y doc)
  = (concat doc ++ [{| placedText := line; placedX := x; placedY := y |}])%list.
Proof.
  induction doc as [|page rest IH]; [congruence|]. intros _.
  destruct rest as [|page' rest].
  - simpl. now rewrite !app_nil_r.
  - change (pdfText line x y (page :: page' :: rest))
      with (page :: pdfText line x y (page' :: rest)).
    cbn [concat]. rewrite IH by discriminate. cbn [concat].
    now rewrite !app_assoc.
Qed.

Lemma concat_addPage (doc : PdfDoc) : concat (addPage doc) = concat doc.
Proof. unfold addPage. rewrite concat_app. simpl. now rewrite app_nil_r. Qed.

Lemma addPage_nonempty (doc : PdfDoc) : addPage doc <> [].
Proof. unfold addPage. destruct doc; discriminate. Qed.

Lemma placeLine_lines (pageHeight : Q) (doc : PdfDoc) (y : Z) (line : string) :
  doc <> [] ->
  fst (placeLine pageHeight (doc, y) line) <> []
  /\ Extra.pdfLines (fst (placeLine pageHeight (doc, y) line))
     = (Extra.pdfLines doc ++ [line])%list.
Proof.
  intros H. unfold placeLine, Extra.pdfLines.
  destruct (beyond pageHeight y); cbn [fst].
  - split; [apply pdfText_nonempty, addPage_nonempty|].
    rewrite concat_pdfText by apply addPage_nonempty.
    now rewrite map_app, concat_addPage.
  - split; [now apply pdfText_nonempty|].
    rewrite concat_pdfText by exact H. now rewrite map_app.
Qed.

Lemma fold_placeLine_lines (pageHeight : Q) (textLines : list string) :
  forall (doc : PdfDoc) (y : Z),
    doc <> [] ->
    Extra.pdfLines (fst (fold_left (placeLine pageHeight) textLines (doc, y)))
    = (Extra.pdfLines doc ++ textLines)%list.
Proof.
  induction textLines as [|line rest IH]; intros doc y H.
  - simpl. now rewrite app_nil_r.
  - cbn [fold_left].
    destruct (placeLine_lines pageHeight doc y line H) as [Hne Hl].
    destruct (placeLine pageHeight (doc, y) line) as [doc' y'] eqn:E.
    cbn [fst] in *. rewrite IH by exact Hne. rewrite Hl.
    now rewrite <- app_assoc.
Qed.

(** X13.  The PDF holds every wrapped line once and in order: reading its
    pages one after the other gives the lines back. *)
Theorem paginate_keeps_lines :
  forall (pageHeight : Q) (textLines : list string),
    Extra.pdfLines (paginate pageHeight textLines) = textLines.
Proof.
  intros pageHeight textLines. unfold paginate.
  now rewrite fold_placeLine_lines by discriminate.
Qed.

Lemma beyond_false_Qle (pageHeight : Q) (y : Z) :
  beyond pageHeight y = false ->
  (inject_Z y <= pageHeight - inject_Z margin)%Q.
Proof.
  unfold beyond. rewrite negb_false_iff. apply Qle_bool_imp_le.
Qed.

Lemma placeLine_inside (pageHeight : Q) (doc : PdfDoc) (y : Z) (line : string) :
  (0 < Spec.pageCapacity pageHeight)%nat ->
  doc <> [] -> (margin <= y)%Z ->
  Forall (Extra.insideMargins pageHeight) (concat doc) ->
  fst (placeLine pageHeight (doc, y) line) <> []
  /\ (margin <= snd (placeLine pageHeight (doc, y) line))%Z
  /\ Forall (Extra.insideMargins pageHeight)
       (concat (fst (placeLine pageHeight (doc, y) line))).
Proof.
  intros Hcap Hne Hy Hall. unfold placeLine.
  destruct (beyond pageHeight y) eqn:E; cbn [fst snd].
  - split; [apply pdfText_nonempty, addPage_nonempty|].
    split; [unfold margin, lineHeight; lia|].
    rewrite concat_pdfText by apply addPage_nonempty.
    rewrite concat_addPage. apply Forall_app. split; [exact Hall|].
    constructor; [|constructor]. unfold Extra.insideMargins. cbn.
    split; [reflexivity|]. split; [lia|].
    apply beyond_false_Qle. apply (cursor_fits pageHeight 0). exact Hcap.
  - split; [now apply pdfText_nonempty|].
    split; [unfold lineHeight; lia|].
    rewrite concat_pdfText by exact Hne.
    apply Forall_app. split; [exact Hall|].
    constructor; [|constructor]. unfold Extra.insideMargins. cbn.
    split; [reflexivity|]. split; [exact Hy|]. now apply beyond_false_Qle.
Qed.

Lemma fold_placeLine_inside (pageHeight : Q) (textLines : list string) :
  (0 < Spec.pageCapacity pageHeight)%nat ->
  forall (doc : PdfDoc) (y : Z),
    doc <> [] -> (margin <= y)%Z ->
    Forall (Extra.insideMargins pageHeight) (concat doc) ->
    Forall (Extra.insideMargins pageHeight)
      (concat (fst (fold_left (placeLine pageHeight) textLines (doc, y)))).
Proof.
  intros Hcap. induction textLines as [|line rest IH]; intros doc y Hne Hy Hall.
  - exact Hall.
  - cbn [fold_left].
    destruct (placeLine_inside pageHeight doc y line Hcap Hne Hy Hall)
      as (Hne' & Hy' & Hall').
    destruct (placeLine pageHeight (doc, y) line) as [doc' y'].
    cbn [fst snd] in *. now apply IH.
Qed.

(** X14.  When a page is high enough to take a line, every line of the
    PDF is placed at the left margin and between the top margin and the
    bottom one. *)
Theorem paginate_inside_margins :
  forall (pageHeight : Q) (textLines : list string),
    (0 < Spec.pageCapacity pageHeight)%nat ->
    Forall (Extra.insideMargins pageHeight)
      (concat (paginate pageHeight textLines)).
Proof.
  intros pageHeight textLines Hcap. unfold paginate.
  apply fold_placeLine_inside; [exact Hcap|discriminate|unfold margin; lia|].
  constructor.
Qed.

Lemma paginate_inside_margins_witness :
  (0 < Spec.pageCapacity (44 # 1))%nat
  /\ Forall (Extra.insideMargins (44 # 1))
       (concat (paginate (44 # 1) ["a"; "b"; "c"; "d"])).
Proof.
  assert (H : (0 < Spec.pageCapacity (44 # 1))%nat) by (vm_compute; lia).
  split; [exact H|]. exact (paginate_inside_margins (44 # 1) ["a"; "b"; "c"; "d"] H).
Defined.

Lemma fold_placeLine_always_breaks (pageHeight : Q) (textLines : list string) :
  Spec.pageCapacity pageHeight = 0%nat ->
  forall (doc : PdfDoc) (k : nat),
    length (fst (fold_left (placeLine pageHeight) textLines (doc, Spec.cursorAt k)))
    = (length doc + length textLines)%nat.
Proof.
  intros Hcap. induction textLines as [|line rest IH]; intros doc k.
  - simpl. lia.
  - cbn [fold_left]. rewrite placeLine_breaks by lia.
    rewrite IH, length_pdfText, length_addPage. simpl. lia.
Qed.

(** X15.  The number of pages: with a page that takes [c] lines, [c] at
    least one, [n] lines give [1 + (n - 1) / c] pages; with a page too
    low for any line, every line opens a page of its own and the first
    page stays empty. *)
Theorem paginate_page_number :
  forall (pageHeight : Q) (textLines : list string),
    ((0 < Spec.pageCapacity pageHeight)%nat ->
     length (paginate pageHeight textLines)
     = (1 + (length textLines - 1) / Spec.pageCapacity pageHeight)%nat)
    /\ (Spec.pageCapacity pageHeight = 0%nat ->
        length (paginate pageHeight textLines) = (1 + length textLines)%nat
        /\ hd_error (paginate pageHeight textLines) = Some []).
Proof.
  intros pageHeight textLines. split; [apply paginate_page_count|].
  intros Hcap. split.
  - unfold paginate. change 15%Z with (Spec.cursorAt 0).
    now rewrite fold_placeLine_always_breaks.
  - unfold paginate. change 15%Z with (Spec.cursorAt 0).
    assert (G : forall lines doc k page,
              hd_error doc = Some page -> (1 < length doc)%nat ->
              hd_error (fst (fold_left (placeLine pageHeight) lines
                               (doc, Spec.cursorAt k))) = Some page).
    { induction lines as [|l rest IH]; intros doc k page Hd Hl; [exact Hd|].
      cbn [fold_left]. rewrite placeLine_breaks by lia. apply IH.
      - destruct doc as [|p [|p' d]]; simpl in Hl; try lia.
        simpl in Hd. injection Hd as ->. reflexivity.
      - rewrite length_pdfText, length_addPage. lia. }
    destruct textLines as [|l rest]; [reflexivity|].
    cbn [fold_left]. rewrite placeLine_breaks by lia.
    apply G; reflexivity || (simpl; lia).
Qed.

Lemma paginate_page_number_witness :
  (0 < Spec.pageCapacity (44 # 1))%nat
  /\ length (paginate (44 # 1) ["a"; "b"; "c"; "d"]) = 2%nat
  /\ Spec.pageCapacity (20 # 1) = 0%nat
  /\ length (paginate (20 # 1) ["a"; "b"]) = 3%nat.
Proof.
  assert (H : (0 < Spec.pageCapacity (44 # 1))%nat) by (vm_compute; lia).
  assert (H0 : Spec.pageCapacity (20 # 1) = 0%nat) by reflexivity.
  split; [exact H|]. split.
  - exact (proj1 (paginate_page_number (44 # 1) ["a"; "b"; "c"; "d"]) H).
  - split; [exact H0|].
    exact (proj1 (proj2 (paginate_page_number (20 # 1) ["a"; "b"]) H0)).
Defined.

Lemma pdfText_prefix (line : string) (x y : Z) (pre doc : PdfDoc) :
  doc <> [] ->
  pdfText line x y (pre ++ doc)%list = (pre ++ pdfText line x y doc)%list.
Proof.
  intros H. induction pre as [|page pre IH]; [reflexivity|].
  rewrite <- !app_comm_cons. destruct (pre ++ doc)%list as [|page' rest] eqn:E.
  - apply app_eq_nil in E. destruct E as [_ E]. contradiction.
  - change (pdfText line x y (page :: page' :: rest))
      with (page :: pdfText line x y (page' :: rest)).
    now rewrite IH.
Qed.

Lemma placeLine_prefix (pageHeight : Q) (pre doc : PdfDoc) (y : Z)
  (line : string) :
  doc <> [] ->
  placeLine pageHeight ((pre ++ doc)%list, y) line
  = ((pre ++ fst (placeLine pageHeight (doc, y) line))%list,
     snd (placeLine pageHeight (doc, y) line)).
Proof.
  intros H. unfold placeLine. destruct (beyond pageHeight y); cbn [fst snd].
  - unfold addPage. rewrite <- app_assoc.
    rewrite pdfText_prefix; [reflexivity|]. destruct doc; discriminate.
  - now rewrite pdfText_prefix.
Qed.

Lemma fold_placeLine_prefix (pageHeight : Q) (textLines : list string) :
  forall (pre doc : PdfDoc) (y : Z),
    doc <> [] ->
    fst (fold_left (placeLine pageHeight) textLines ((pre ++ doc)%list, y))
    = (pre ++ fst (fold_left (placeLine pageHeight) textLines (doc, y)))%list.
Proof.
  induction textLines as [|line rest IH]; intros pre doc y H; [reflexivity|].
  cbn [fold_left]. rewrite placeLine_prefix by exact H.
  destruct (placeLine_lines pageHeight doc y line H) as [Hne _].
  destruct (placeLine pageHeight (doc, y) line) as [doc' y'].
  cbn [fst snd] in *. now apply IH.
Qed.

Lemma fold_placeLine_page (pageHeight : Q) (textLines : list string) :
  forall (page : list Placed) (k : nat),
    (k + length textLines <= Spec.pageCapacity pageHeight)%nat ->
    fold_left (placeLine pageHeight) textLines ([page], Spec.cursorAt k)
    = ([(page ++ Extra.placeFrom k textLines)%list],
       Spec.cursorAt (k + length textLines)).
Proof.
  induction textLines as [|line rest IH]; intros page k H.
  - simpl. now rewrite app_nil_r, Nat.add_0_r.
  - simpl in H. cbn [fold_left]. rewrite placeLine_fits by lia.
    cbn [pdfText]. rewrite IH by lia. cbn [Extra.placeFrom length].
    rewrite <- app_assoc, Nat.add_succ_r. reflexivity.
Qed.

(** X16.  The pages are the wrapped lines cut into runs of one page's
    capacity: the first page takes the first run, each line at the left
    margin and one line height below the previous one, and the remaining
    lines are laid out on the following pages in the same way. *)
Theorem paginate_runs :
  forall (pageHeight : Q) (textLines : list string),
    (0 < Spec.pageCapacity pageHeight)%nat ->
    ((length textLines <= Spec.pageCapacity pageHeight)%nat ->
     paginate pageHeight textLines = [Extra.placeFrom 0 textLines])
    /\ ((Spec.pageCapacity pageHeight < length textLines)%nat ->
        paginate pageHeight textLines
        = Extra.placeFrom 0 (firstn (Spec.pageCapacity pageHeight) textLines)
          :: paginate pageHeight (skipn (Spec.pageCapacity pageHeight) textLines)).
Proof.
  intros pageHeight textLines Hcap. set (cap := Spec.pageCapacity pageHeight) in *.
  split; intros H.
  - unfold paginate. change 15%Z with (Spec.cursorAt 0). unfold newPdf.
    rewrite fold_placeLine_page by (fold cap; lia). reflexivity.
  - unfold paginate at 1. change 15%Z with (Spec.cursorAt 0). unfold newPdf.
    rewrite <- (firstn_skipn cap textLines) at 1. rewrite fold_left_app.
    assert (Hn : length (firstn cap textLines) = cap)
      by (apply firstn_length_le; lia).
    rewrite fold_placeLine_page by (fold cap; lia). rewrite Hn.
    cbn [app Nat.add].
    destruct (skipn cap textLines) as [|line rest] eqn:Es.
    { apply (f_equal (@length string)) in Es. rewrite length_skipn in Es.
      simpl in Es. lia. }
    unfold paginate. change 15%Z with (Spec.cursorAt 0). unfold newPdf.
    cbn [fold_left].
    rewrite placeLine_breaks by (fold cap; lia).
    rewrite (placeLine_fits pageHeight [[]] 0 line) by (fold cap; lia).
    change (addPage [([] ++ Extra.placeFrom 0 (firstn cap textLines))%list])
      with ([Extra.placeFrom 0 (firstn cap textLines)] ++ [[]])%list.
    rewrite pdfText_prefix by discriminate.
    rewrite fold_placeLine_prefix by discriminate.
    reflexivity.
Qed.

Lemma paginate_runs_witness :
  (0 < Spec.pageCapacity (44 # 1))%nat
  /\ paginate (44 # 1) ["a"; "b"; "c"; "d"]
     = Extra.placeFrom 0 ["a"; "b"; "c"] :: paginate (44 # 1) ["d"]
  /\ paginate (44 # 1) ["d"] = [Extra.placeFrom 0 ["d"]].
Proof.
  assert (H : (0 < Spec.pageCapacity (44 # 1))%nat) by (vm_compute; lia).
  split; [exact H|]. split.
  - apply (proj2 (paginate_runs (44 # 1) ["a"; "b"; "c"; "d"] H)).
    vm_compute. lia.
  - apply (proj1 (paginate_runs (44 # 1) ["d"] H)). vm_compute. lia.
Defined.

(** ** The Word document *)

Lemma splitLines_nonempty (s : string) : splitLines s <> [].
Proof.
  induction s as [|c r IH]; [discriminate|]. simpl.
  destruct (JS.code c =? 10); [discriminate|].
  destruct (splitLines r); [contradiction|discriminate].
Qed.

Lemma join_cons_char (c : ascii) (line : string) (rest : list string) :
  JS.join JS.LF (String c line :: rest) = String c (JS.join JS.LF (line :: rest)).
Proof. destruct rest; reflexivity. Qed.

Lemma join_splitLines (s : string) : JS.join JS.LF (splitLines s) = s.
Proof.
  induction s as [|c r IH]; [reflexivity|]. simpl.
  destruct (JS.code c =? 10) eqn:E.
  - apply N.eqb_eq, code_eq in E. subst c.
    pose proof (splitLines_nonempty r) as Hne.
    destruct (splitLines r) as [|line rest]; [contradiction|].
    rewrite join_cons2, IH. reflexivity.
  - pose proof (splitLines_nonempty r) as Hne.
    destruct (splitLines r) as [|line rest]; [contradiction|].
    now rewrite join_cons_char, IH.
Qed.

Lemma length_splitLines (s : string) :
  length (splitLines s) = S (Extra.lineFeeds s).
Proof.
  induction s as [|c r IH]; [reflexivity|]. simpl.
  destruct (JS.code c =? 10); simpl; [now rewrite IH|].
  pose proof (splitLines_nonempty r) as Hne.
  destruct (splitLines r) as [|line rest]; [contradiction|]. exact IH.
Qed.

Lemma splitLines_no_feed (s : string) :
  Forall (fun line => Extra.lineFeeds line = 0%nat) (splitLines s).
Proof.
  induction s as [|c r IH]; [repeat constructor|]. simpl.
  destruct (JS.code c =? 10) eqn:E; [constructor; [reflexivity|exact IH]|].
  pose proof (splitLines_nonempty r) as Hne.
  destruct (splitLines r) as [|line rest]; [contradiction|].
  inversion IH; subst. constructor; [|assumption]. simpl. now rewrite E.
Qed.

(** X17.  A text section becomes its heading, one plain paragraph per
    line of the body and an empty paragraph; joining those lines with
    line feeds gives the body back, there is one more of them than the
    body has line feeds, and none of them holds a line feed. *)
Theorem docxSection_text :
  forall (up : string -> string) (key body : string),
    docxSection up (key, Text body)
    = (Heading (formatTitle up key) :: map Plain (splitLines body)
       ++ [EmptyParagraph])%list
    /\ JS.join JS.LF (splitLines body) = body
    /\ length (splitLines body) = S (Extra.lineFeeds body)
    /\ Forall (fun line => Extra.lineFeeds line = 0%nat) (splitLines body).
Proof.
  intros up key body. split; [reflexivity|]. split; [apply join_splitLines|].
  split; [apply length_splitLines|apply splitLines_no_feed].
Qed.

Lemma headings_app (a b : list DocxParagraph) :
  Extra.headings (a ++ b) = (Extra.headings a ++ Extra.headings b)%list.
Proof. apply flat_map_app. Qed.

Lemma bullets_app (a b : list DocxParagraph) :
  Extra.bullets (a ++ b) = (Extra.bullets a ++ Extra.bullets b)%list.
Proof. apply flat_map_app. Qed.

Lemma headings_map_Plain (l : list string) : Extra.headings (map Plain l) = [].
Proof. induction l; [reflexivity|exact IHl]. Qed.

Lemma headings_map_Bullet (l : list string) : Extra.headings (map Bullet l) = [].
Proof. induction l; [reflexivity|exact IHl]. Qed.

Lemma bullets_map_Plain (l : list string) : Extra.bullets (map Plain l) = [].
Proof. induction l; [reflexivity|exact IHl]. Qed.

Lemma bullets_map_Bullet (l : list string) : Extra.bullets (map Bullet l) = l.
Proof. induction l as [|x l IH]; [reflexivity|]. simpl. now rewrite IH. Qed.

Lemma docxSection_headings (up : string -> string)
  (entry : string * GeneratedSectionValue) :
  Extra.headings (docxSection up entry) = [formatTitle up (fst entry)].
Proof.
  destruct entry as [key [body|v]]; unfold docxSection.
  - change (Extra.headings (Heading (formatTitle up key)
              :: map Plain (splitLines body) ++ [EmptyParagraph]))
      with (formatTitle up key
              :: Extra.headings (map Plain (splitLines body) ++ [EmptyParagraph])).
    now rewrite headings_app, headings_map_Plain.
  - change (Extra.headings
              (Heading (formatTitle up key)
               :: (Label "Shot Suggestions" 0
                   :: map Bullet (shotSuggestions v)
                      ++ Label "B-Roll" 200 :: map Bullet (bRoll v))
                  ++ [EmptyParagraph]))
      with (formatTitle up key
              :: Extra.headings
                   ((map Bullet (shotSuggestions v)
                     ++ Label "B-Roll" 200 :: map Bullet (bRoll v))
                    ++ [EmptyParagraph])).
    rewrite !headings_app, headings_map_Bullet.
    change (Extra.headings (Label "B-Roll" 200 :: map Bullet (bRoll v)))
      with (Extra.headings (map Bullet (bRoll v))).
    now rewrite headings_map_Bullet.
Qed.

Lemma docxSection_bullets (up : string -> string)
  (entry : string * GeneratedSectionValue) :
  Extra.bullets (docxSection up entry)
  = match snd entry with
    | Text _ => []
    | Visual v => (shotSuggestions v ++ bRoll v)%list
    end.
Proof.
  destruct entry as [key [body|v]]; unfold docxSection; cbn [snd].
  - change (Extra.bullets (Heading (formatTitle up key)
              :: map Plain (splitLines body) ++ [EmptyParagraph]))
      with (Extra.bullets (map Plain (splitLines body) ++ [EmptyParagraph])).
    now rewrite bullets_app, bullets_map_Plain.
  - change (Extra.bullets
              (Heading (formatTitle up key)
               :: (Label "Shot Suggestions" 0
                   :: map Bullet (shotSuggestions v)
                      ++ Label "B-Roll" 200 :: map Bullet (bRoll v))
                  ++ [EmptyParagraph]))
      with (Extra.bullets
              ((map Bullet (shotSuggestions v)
                ++ Label "B-Roll" 200 :: map Bullet (bRoll v))
               ++ [EmptyParagraph])).
    rewrite !bullets_app, bullets_map_Bullet.
    change (Extra.bullets (Label "B-Roll" 200 :: map Bullet (bRoll v)))
      with (Extra.bullets (map Bullet (bRoll v))).
    rewrite bullets_map_Bullet. simpl. now rewrite app_nil_r.
Qed.

(** X18.  The Word document has one heading per section, in key order
    and with the titles the flattened text uses, and its bullets are the
    shots and b-roll items of the visual sections, in order. *)
Theorem handleExportDocx_structure :
  forall (up : string -> string) (doc : Sections),
    exists paragraphs,
      handleExportDocx up (Some doc) = Some paragraphs
      /\ Extra.headings paragraphs = map (fun e => formatTitle up (fst e)) doc
      /\ Extra.bullets paragraphs
         = flat_map (fun e => match snd e with
                              | Text _ => []
                              | Visual v => (shotSuggestions v ++ bRoll v)%list
                              end) doc.
Proof.
  intros up doc. eexists. split; [reflexivity|]. split.
  - induction doc as [|e doc IH]; [reflexivity|].
    cbn [flat_map map]. now rewrite headings_app, docxSection_headings, IH.
  - induction doc as [|e doc IH]; [reflexivity|].
    cbn [flat_map]. now rewrite bullets_app, docxSection_bullets, IH.
Qed.

(** X19.  The number of paragraphs of the Word document: three more than
    its line feeds for a text section, four more than its items for a
    visual section, summed over the sections. *)
Theorem handleExportDocx_size :
  forall (up : string -> string) (doc : Sections),
    option_map (@length DocxParagraph) (handleExportDocx up (Some doc))
    = Some (list_sum
              (map (fun e => match snd e with
                             | Text body => (Extra.lineFeeds body + 3)%nat
                             | Visual v =>
                                 (length (shotSuggestions v)
                                  + length (bRoll v) + 4)%nat
                             end) doc)).
Proof.
  intros up doc. simpl. f_equal.
  induction doc as [|[key value] doc IH]; [reflexivity|].
  cbn [flat_map map list_sum fold_right]. rewrite length_app.
  change (fold_right Nat.add 0%nat ?l) with (list_sum l) in *.
  rewrite IH. f_equal. destruct value as [body|v]; cbn [snd docxSection].
  - change (S (length (map Plain (splitLines body) ++ [EmptyParagraph]))
            = (Extra.lineFeeds body + 3)%nat).
    rewrite length_app, length_map, length_splitLines. simpl. lia.
  - change (S (S (length ((map Bullet (shotSuggestions v)
                           ++ Label "B-Roll" 200 :: map Bullet (bRoll v))
                          ++ [EmptyParagraph])))
            = (length (shotSuggestions v) + length (bRoll v) + 4)%nat).
    rewrite !length_app.
    change (length (Label "B-Roll" 200 :: map Bullet (bRoll v)))
      with (S (length (map Bullet (bRoll v)))).
    rewrite !length_map. simpl. lia.
Qed.

(** ** Voices *)

Lemma findVoice_In (uris : list string) (uri : string) :
  findVoice uris (Some uri) = Some uri <-> In uri uris.
Proof.
  induction uris as [|v rest IH]; simpl; [split; [discriminate|intros []]|].
  destruct (String.eqb_spec v uri) as [->|N].
  - split; [now left|reflexivity].
  - rewrite IH. split; [now right|intros [H|H]; [contradiction|exact H]].
Qed.

Lemma findVoice_not_In (uris : list string) (uri : string) :
  findVoice uris (Some uri) = None <-> ~ In uri uris.
Proof.
  induction uris as [|v rest IH]; simpl; [split; [intros _ []|reflexivity]|].
  destruct (String.eqb_spec v uri) as [->|N].
  - split; [discriminate|intros H; exfalso; apply H; now left].
  - rewrite IH. split; [intros H [E|E]; [contradiction|now apply H]|].
    intros H E. apply H. now right.
Qed.

Lemma find_first {A : Type} (f : A -> bool) (l : list A) (x : A) :
  find f l = Some x ->
  exists before after,
    l = (before ++ x :: after)%list /\ f x = true
    /\ Forall (fun y => f y = false) before.
Proof.
  induction l as [|y l IH]; [discriminate|]. simpl.
  destruct (f y) eqn:E.
  - intros [= <-]. exists [], l. repeat split; [exact E|constructor].
  - intros H. destruct (IH H) as (before & after & -> & Hx & Hall).
    exists (y :: before), after. repeat split; [exact Hx|].
    constructor; assumption.
Qed.

Lemma find_none_Forall {A : Type} (f : A -> bool) (l : list A) :
  find f l = None -> Forall (fun y => f y = false) l.
Proof.
  intros H. apply Forall_forall. intros y Hy. exact (find_none f l H y Hy).
Qed.

(** X20.  When voices become available and none was chosen, the chosen
    voice is the first one of the list tagged en-US (no voice before it
    has that tag), or the first voice of the list if none has the tag; a
    voice chosen before is kept, and an empty list changes nothing. *)
Theorem loadVoices_default :
  forall (first : Voice) (others voices : list Voice) (st : App),
    loadVoices [] (voices, st) = (voices, st)
    /\ (falsy (selectedVoiceURI st) = false ->
        loadVoices (first :: others) (voices, st) = (first :: others, st))
    /\ (falsy (selectedVoiceURI st) = true ->
        exists chosen,
          loadVoices (first :: others) (voices, st)
          = (first :: others, setSelectedVoiceURI (Some (voiceURI chosen)) st)
          /\ ((exists before after,
                 first :: others = (before ++ chosen :: after)%list
                 /\ voiceLang chosen = "en-US"
                 /\ Forall (fun v => voiceLang v <> "en-US") before)
              \/ (chosen = first
                  /\ Forall (fun v => voiceLang v <> "en-US") (first :: others)))).
Proof.
  intros first others voices st. split; [reflexivity|]. split.
  - intros H. unfold loadVoices. now rewrite H.
  - intros H. unfold loadVoices. rewrite H.
    destruct (find (fun v => String.eqb (voiceLang v) "en-US") (first :: others))
      as [v|] eqn:E.
    + exists v. split; [reflexivity|]. left.
      destruct (find_first _ _ _ E) as (before & after & Hl & Hv & Hall).
      exists before, after. split; [exact Hl|].
      split; [now apply String.eqb_eq|].
      eapply Forall_impl; [|exact Hall]. intros a Ha. now apply String.eqb_neq.
    + exists first. split; [reflexivity|]. right. split; [reflexivity|].
      apply find_none_Forall in E.
      eapply Forall_impl; [|exact E]. intros a Ha. now apply String.eqb_neq.
Qed.

Lemma loadVoices_default_witness :
  falsy (selectedVoiceURI initialApp) = true
  /\ exists chosen,
       selectedVoiceURI
         (snd (loadVoices
                 [ {| voiceURI := "urn:a"; voiceName := "Anna"; voiceLang := "de-DE" |};
                   {| voiceURI := "urn:b"; voiceName := "Bob"; voiceLang := "en-US" |};
                   {| voiceURI := "urn:c"; voiceName := "Cleo"; voiceLang := "en-US" |} ]
                 ([], initialApp)))
       = Some (voiceURI chosen).
Proof.
  split; [reflexivity|].
  destruct (loadVoices_default
              {| voiceURI := "urn:a"; voiceName := "Anna"; voiceLang := "de-DE" |}
              [ {| voiceURI := "urn:b"; voiceName := "Bob"; voiceLang := "en-US" |};
                {| voiceURI := "urn:c"; voiceName := "Cleo"; voiceLang := "en-US" |} ]
              [] initialApp) as (_ & _ & H).
  destruct (H eq_refl) as (chosen & E & _).
  exists chosen. rewrite E. reflexivity.
Defined.

(** Of two voices tagged en-US the earlier one is chosen. *)
Example loadVoices_first_match :
  selectedVoiceURI
    (snd (loadVoices
            [ {| voiceURI := "urn:a"; voiceName := "Anna"; voiceLang := "de-DE" |};
              {| voiceURI := "urn:b"; voiceName := "Bob"; voiceLang := "en-US" |};
              {| voiceURI := "urn:c"; voiceName := "Cleo"; voiceLang := "en-US" |} ]
            ([], initialApp)))
  = Some "urn:b".
Proof. reflexivity. Qed.

(** X21.  An utterance is bound to the chosen voice exactly when that
    voice is among the loaded ones; after the default choice it always
    is. *)
Theorem listen_voice :
  forall (voices : list Voice) (key : string) (value : GeneratedSectionValue)
         (s : Speech) (uri : string),
    isSpeaking s key = false ->
    selectedVoiceURI (app s) = Some uri ->
    (In uri (map voiceURI voices) ->
     map utteranceVoice (queue (listen voices key value s)) = [Some uri])
    /\ (~ In uri (map voiceURI voices) ->
        map utteranceVoice (queue (listen voices key value s)) = [None])
    /\ map utteranceText (queue (listen voices key value s))
       = [sectionSpeechText value].
Proof.
  intros voices key value s uri Hk Huri. unfold listen, handleListen.
  unfold isSpeaking in Hk. rewrite Hk. cbn [queue synthSpeak synthCancel app map].
  rewrite Huri. split; [|split; [|reflexivity]].
  - intros H. apply findVoice_In in H. now rewrite H.
  - intros H. apply findVoice_not_In in H. now rewrite H.
Qed.

Lemma listen_voice_witness :
  map utteranceVoice
    (queue (listen
              [ {| voiceURI := "urn:b"; voiceName := "Bob"; voiceLang := "en-US" |} ]
              "hook" (Text "Try this!")
              {| app := setSelectedVoiceURI (Some "urn:b") initialApp;
                 queue := []; created := 0 |}))
  = [Some "urn:b"].
Proof.
  apply (listen_voice
           [ {| voiceURI := "urn:b"; voiceName := "Bob"; voiceLang := "en-US" |} ]
           "hook" (Text "Try this!")
           {| app := setSelectedVoiceURI (Some "urn:b") initialApp;
              queue := []; created := 0 |} "urn:b" eq_refl eq_refl).
  simpl. now left.
Defined.

(** ** Sharing *)

(** X22.  Sharing hands something to the platform exactly when there is
    a document and sharing is supported; what it hands over is the text
    the PDF export paginates; the state changes only when the platform
    refuses, and then only by the share message. *)
Theorem handleShare_cases :
  forall (up : string -> string) (isShareSupported : bool)
         (share : ShareData -> bool) (doc : option Sections) (st : App),
    (snd (handleShare up isShareSupported share doc st) = []
     <-> doc = None \/ isShareSupported = false)
    /\ (forall data, In data (snd (handleShare up isShareSupported share doc st)) ->
          shareText data = getFullScriptText up doc false
          /\ snd (handleShare up isShareSupported share doc st) = [data]
          /\ fst (handleShare up isShareSupported share doc st)
             = if share data then st else setError (Some msgShare) st)
    /\ (snd (handleShare up isShareSupported share doc st) = [] ->
        fst (handleShare up isShareSupported share doc st) = st).
Proof.
  intros up supported share doc st. unfold handleShare.
  destruct doc as [entries|].
  - destruct supported; cbn [negb].
    + set (data := {| shareTitle := "AI Generated Script";
                      shareText := getFullScriptText up (Some entries) true |}).
      destruct (share data) eqn:E; cbn [fst snd].
      * split; [split; [discriminate|intros [H|H]; discriminate]|].
        split; [|discriminate].
        intros d [<-|[]]. rewrite E. repeat split.
      * split; [split; [discriminate|intros [H|H]; discriminate]|].
        split; [|discriminate].
        intros d [<-|[]]. rewrite E. repeat split.
    + cbn [fst snd]. split; [split; [now right|reflexivity]|].
      split; [intros d []|reflexivity].
  - cbn [fst snd]. split; [split; [now left|reflexivity]|].
    split; [intros d []|reflexivity].
Qed.

Lemma handleShare_cases_witness :
  snd (handleShare (fun s => s) true (fun _ => false) (Some Scenario.sections)
         initialApp) <> []
  /\ error (fst (handleShare (fun s => s) true (fun _ => false)
                   (Some Scenario.sections) initialApp)) = Some msgShare.
Proof.
  destruct (handleShare_cases (fun s => s) true (fun _ => false)
              (Some Scenario.sections) initialApp) as (H1 & H2 & _).
  split.
  - intros E. apply H1 in E. destruct E as [E|E]; discriminate E.
  - destruct (H2 {| shareTitle := "AI Generated Script";
                    shareText := getFullScriptText (fun s => s)
                                   (Some Scenario.sections) true |})
      as (_ & _ & H3); [now left|].
    rewrite H3. reflexivity.
Defined.
